(** * golang-rest: routing and dispatch core (rest.go)

  A shallow embedding of [rest.go].  Go strings are byte sequences and are
  modelled as [list ascii]; Go [int] values as [Z]; Go maps as [gmap];
  slices as lists ([nil] and the empty slice are both the empty list).
  The response sink ([http.ResponseWriter]) is modelled by the sequence of
  calls made on it.  Panics are modelled by an error result. *)

From Stdlib Require Import Ascii String ZArith Lia Bool.
From stdpp Require Import gmap strings list.

Local Open Scope char_scope.

(** A Go string literal. *)
Definition str (s : string) : list ascii := list_ascii_of_string s.

(** ** The regular expressions of package [regexp] that [rest.go] uses

  The package is an external collaborator; its matching semantics is
  language membership (RE2).  [re] is the abstract syntax, [lang] the
  language of an expression, [full_match] an executable matcher by
  derivatives. *)
Module Regexp.

Inductive re : Type :=
| Void : re
| Eps : re
| Class : list (ascii * ascii) -> re     (* [lo1-hi1 lo2-hi2 ...] *)
| Cat : re -> re -> re
| Alt : re -> re -> re
| Star : re -> re.

Definition Lit (c : ascii) : re := Class [(c, c)].
Definition Plus (r : re) : re := Cat r (Star r).      (* r+ *)
Definition Opt (r : re) : re := Alt r Eps.            (* r? *)

Definition in_range (c : ascii) (rg : ascii * ascii) : bool :=
  (nat_of_ascii (fst rg) <=? nat_of_ascii c)%nat
  && (nat_of_ascii c <=? nat_of_ascii (snd rg))%nat.

Definition in_class (rs : list (ascii * ascii)) (c : ascii) : bool :=
  existsb (in_range c) rs.

Inductive lang : re -> list ascii -> Prop :=
| lang_eps : lang Eps []
| lang_class rs c : in_class rs c = true -> lang (Class rs) [c]
| lang_cat a b s t : lang a s -> lang b t -> lang (Cat a b) (s ++ t)
| lang_alt_l a b s : lang a s -> lang (Alt a b) s
| lang_alt_r a b s : lang b s -> lang (Alt a b) s
| lang_star_nil a : lang (Star a) []
| lang_star_app a s t : lang a s -> lang (Star a) t -> lang (Star a) (s ++ t).

Fixpoint nullable (r : re) : bool :=
  match r with
  | Void => false
  | Eps => true
  | Class _ => false
  | Cat a b => nullable a && nullable b
  | Alt a b => nullable a || nullable b
  | Star _ => true
  end.

(** Constructors that drop [Void] branches, so that derivatives stay small. *)
Definition mkCat (a b : re) : re :=
  match a, b with
  | Void, _ => Void
  | _, Void => Void
  | Eps, _ => b
  | _, _ => Cat a b
  end.

Definition mkAlt (a b : re) : re :=
  match a, b with
  | Void, _ => b
  | _, Void => a
  | _, _ => Alt a b
  end.

Fixpoint deriv (c : ascii) (r : re) : re :=
  match r with
  | Void => Void
  | Eps => Void
  | Class rs => if in_class rs c then Eps else Void
  | Cat a b =>
      if nullable a then mkAlt (mkCat (deriv c a) b) (deriv c b)
      else mkCat (deriv c a) b
  | Alt a b => mkAlt (deriv c a) (deriv c b)
  | Star a => mkCat (deriv c a) (Star a)
  end.

(** The whole of [s] is in the language of [r]. *)
Fixpoint full_match (r : re) (s : list ascii) : bool :=
  match s with
  | [] => nullable r
  | c :: s' => full_match (deriv c r) s'
  end.

(** Some prefix of [s] is in the language of [r]. *)
Fixpoint prefix_match (r : re) (s : list ascii) : bool :=
  nullable r ||
  match s with
  | [] => false
  | c :: s' => prefix_match (deriv c r) s'
  end.

(** A compiled pattern: [^body$] with either anchor optional. *)
Record Regexp : Type := mkRegexp {
  source : list ascii;                   (* what [String()] returns *)
  anchor_begin : bool;
  anchor_end : bool;
  body : re
}.

Definition match_here (R : Regexp) (s : list ascii) : bool :=
  if anchor_end R then full_match (body R) s else prefix_match (body R) s.

Fixpoint match_from (R : Regexp) (s : list ascii) : bool :=
  match_here R s ||
  match s with
  | [] => false
  | _ :: s' => match_from R s'
  end.

(** [Regexp.MatchString] of Go: the string contains a match of the pattern. *)
Definition MatchString (R : Regexp) (s : list ascii) : bool :=
  if anchor_begin R then match_here R s else match_from R s.

(** *** Parsing the fragment of the syntax that [toRegexPath] generates:
    literal characters and bracket classes, each optionally followed by
    [+].  A string outside the fragment gives [None]. *)

Definition is_meta (c : ascii) : bool :=
  match c with
  | "\" | "." | "+" | "*" | "?" | "(" | ")" | "|" | "[" | "]" | "{" | "}"
  | "^" | "$" => true
  | _ => false
  end.

(** An item of the fragment: a class, and whether [+] follows it. *)
Definition item : Type := (list (ascii * ascii) * bool)%type.

(** One pass over the pattern text.  [cls] holds the ranges read so far
    while inside a bracket class; [acc] the items read so far, last
    first. *)
Fixpoint parse (cls : option (list (ascii * ascii))) (acc : list item)
    (s : list ascii) : option (list item) :=
  match cls with
  | None =>
      match s with
      | [] => Some (rev acc)
      | "[" :: s1 => parse (Some []) acc s1
      | "+" :: s1 =>
          match acc with
          | (rs, false) :: acc' => parse None ((rs, true) :: acc') s1
          | _ => None
          end
      | c :: s1 =>
          if is_meta c then None else parse None (([(c, c)], false) :: acc) s1
      end
  | Some rs =>
      match s with
      | [] => None
      | "]" :: s1 =>
          match rs with
          | [] => None
          | _ => parse None ((rev rs, false) :: acc) s1
          end
      | "\" :: _ | "[" :: _ | "^" :: _ => None
      | lo :: s1 =>
          match s1 with
          | "-" :: "]" :: s3 =>
              parse None ((rev (("-", "-") :: (lo, lo) :: rs), false) :: acc) s3
          | "-" :: hi :: s3 =>
              if is_meta hi || (nat_of_ascii hi <? nat_of_ascii lo)%nat
              then None
              else parse (Some ((lo, hi) :: rs)) acc s3
          | _ => parse (Some ((lo, lo) :: rs)) acc s1
          end
      end
  end.

Definition re_of_item (i : item) : re :=
  if snd i then Plus (Class (fst i)) else Class (fst i).

Definition re_of_items (l : list item) : re :=
  foldr (fun i r => Cat (re_of_item i) r) Eps l.

(** [regexp.MustCompile] on the fragment; [None] stands for a pattern
    outside it. *)
Definition MustCompile (s : list ascii) : option Regexp :=
  match parse None [] s with
  | Some l => Some (mkRegexp s false false (re_of_items l))
  | None => None
  end.

End Regexp.

Import Regexp.

(** ** Package [strings] *)

(** [strings.Split(s, sep)] for a one-byte separator: the pieces of [s]
  between the occurrences of [sep], one more than there are occurrences. *)
Fixpoint Split (s : list ascii) (sep : ascii) : list (list ascii) :=
match s with
| [] => [[]]
| c :: s' =>
    if Ascii.eqb c sep then [] :: Split s' sep
    else match Split s' sep with
         | p :: ps => (c :: p) :: ps
         | [] => [[c]]
         end
end.

(** [strings.HasPrefix(s, prefix)] for a one-byte prefix. *)
Definition HasPrefix (s : list ascii) (prefix : ascii) : bool :=
match s with
| c :: _ => Ascii.eqb c prefix
| [] => false
end.

(** [strings.Replace(s, old, "", 1)] for a one-byte [old]: the first
  occurrence is deleted. *)
Fixpoint Replace_first (s : list ascii) (old : ascii) : list ascii :=
match s with
| [] => []
| c :: s' => if Ascii.eqb c old then s' else c :: Replace_first s' old
end.

(** ** Path templates (rest.go, lines 428-493) *)

Definition lower_or_digit : re := Class [("a", "z"); ("0", "9")].

(** [[a-z0-9]+(-?[a-z0-9]+)*] *)
Definition subPathPattern : re :=
Cat (Plus lower_or_digit) (Star (Cat (Opt (Lit "-")) (Plus lower_or_digit))).

(** [^(/(({sub})|(sub)))+$]: a brace that opens no repetition count is a
  literal brace. *)
Definition segmentPattern : re :=
Cat (Lit "/")
    (Alt (Cat (Lit "{") (Cat subPathPattern (Lit "}"))) subPathPattern).

Definition pathPattern : Regexp :=
mkRegexp
  (str "^(/(({[a-z0-9]+(-?[a-z0-9]+)*})|([a-z0-9]+(-?[a-z0-9]+)*)))+$")
  true true
  (Plus segmentPattern).

Definition isValidPath (path : list ascii) : bool :=
if decide (path = str "/") then true else MatchString pathPattern path.

Definition removeBraces (key : list ascii) : list ascii :=
Replace_first (Replace_first key "}") "{".

Record PathVariable : Type := mkPathVariable {
pathIndex : Z;
variableName : list ascii
}.

(** The loop of [extractPathVariableNames] from part number [partIndex] on.
  [partIndex] stays below the length of the path, far from the bounds of a
  Go [int]. *)
Fixpoint extract_names_loop (partIndex : Z) (pathParts : list (list ascii))
: list PathVariable :=
match pathParts with
| [] => []
| partValue :: rest =>
    if HasPrefix partValue "{"
    then mkPathVariable (partIndex - 1) (removeBraces partValue)
           :: extract_names_loop (partIndex + 1) rest
    else extract_names_loop (partIndex + 1) rest
end.

Definition extractPathVariableNames (path : list ascii) : list PathVariable :=
extract_names_loop 0 (Split path "/").

(** [pathParts[i]]: [None] is the index-out-of-range panic. *)
Definition index_parts (pathParts : list (list ascii)) (i : Z)
: option (list ascii) :=
if (i <? 0)%Z then None else pathParts !! Z.to_nat i.

Fixpoint extract_values_loop (pathParts : list (list ascii))
  (pathVariables : list PathVariable)
  (acc : gmap (list ascii) (list ascii))
: option (gmap (list ascii) (list ascii)) :=
match pathVariables with
| [] => Some acc
| pathVariable :: rest =>
    match index_parts pathParts (pathIndex pathVariable + 1) with
    | Some value =>
        extract_values_loop pathParts rest
          (<[variableName pathVariable := value]> acc)
    | None => None
    end
end.

Definition extractPathVariableValues (path : list ascii)
  (pathVariables : list PathVariable)
: option (gmap (list ascii) (list ascii)) :=
extract_values_loop (Split path "/") pathVariables ∅.

(** Is there a closing brace in [s] before any newline? *)
Fixpoint closes (s : list ascii) : bool :=
match s with
| [] => false
| c :: s' =>
    if Ascii.eqb c "}" then true
    else if Ascii.eqb c "010" then false
    else closes s'
end.

Inductive scan_state : Type :=
| Outside          (* between matches *)
| SkipFirst        (* inside a match, at the character the group must take *)
| SkipToClose.     (* inside a match, before its closing brace *)

(** [regexPathVariableName.ReplaceAllString(path, repl)] for the pattern
  [\{(.+?)\}]: the leftmost matches, which do not overlap, are replaced.
  A match starts at an opening brace followed by one character other than
  a newline and then, with no newline in between, a closing brace; the
  lazy group makes it end at the first such brace.  No byte of a
  multi-byte character is a brace or a newline, so scanning bytes finds
  the same matches as scanning characters.  [repl] has no dollar sign, so
  it is inserted as it is. *)
Fixpoint replace_scan (st : scan_state) (repl s : list ascii) : list ascii :=
match s with
| [] => []
| c :: s' =>
    match st with
    | Outside =>
        if Ascii.eqb c "{" then
          match s' with
          | x :: s'' =>
              if negb (Ascii.eqb x "010") && closes s''
              then repl ++ replace_scan SkipFirst repl s'
              else c :: replace_scan Outside repl s'
          | [] => [c]
          end
        else c :: replace_scan Outside repl s'
    | SkipFirst => replace_scan SkipToClose repl s'
    | SkipToClose =>
        if Ascii.eqb c "}" then replace_scan Outside repl s'
        else replace_scan SkipToClose repl s'
    end
end.

Definition ReplaceAllString (src repl : list ascii) : list ascii :=
replace_scan Outside repl src.

Definition regexPart : list ascii := str "[a-zA-Z0-9_-]+".

(** [None]: the generated pattern is outside the fragment of [MustCompile]
  (it never is for a valid path, see [toRegexPath_valid]). *)
Definition toRegexPath (path : list ascii) : option Regexp :=
MustCompile (ReplaceAllString path regexPart).


(** ** Package [reflect]: the types of handler functions *)

(** The kinds of the types that are no pointers, and all kinds. *)
Inductive BaseKind : Type :=
| KBool | KInt | KString | KStruct | KInterface | KMap | KSlice | KFunc.

Inductive Kind : Type :=
| KOf (b : BaseKind)
| KPtr.

(** A parameter or result type: a named type that is no pointer, or a
    pointer type, which may have a name of its own ([type P *T]). *)
Inductive Ty : Type :=
| TNamed : list ascii -> BaseKind -> Ty
| TPtr : option (list ascii) -> Ty -> Ty.

Global Instance BaseKind_eq_dec : EqDecision BaseKind.
Proof. solve_decision. Defined.

Global Instance Kind_eq_dec : EqDecision Kind.
Proof. solve_decision. Defined.

Global Instance Ty_eq_dec : EqDecision Ty.
Proof. solve_decision. Defined.

Definition Ty_Kind (t : Ty) : Kind :=
match t with
| TNamed _ b => KOf b
| TPtr _ _ => KPtr
end.

(** [Type.Elem()] of a pointer type. *)
Definition Ty_Elem (t : Ty) : option Ty :=
match t with
| TPtr _ e => Some e
| TNamed _ _ => None
end.

(** The dynamic type of the value handed to registration: a function type
  with its parameter and result types, or some other type. *)
Inductive RType : Type :=
| RFunc (ins outs : list Ty)
| ROther (t : Ty).

(** [reflect.TypeOf(( **Http)(nil)).Elem()], the type [*rest.Http]. *)
Definition httpType : Ty := TPtr None (TNamed (str "rest.Http") KStruct).

(** [reflect.TypeOf(( *HttpResponse)(nil)).Elem()], the interface type. *)
Definition httpResponseType : Ty := TNamed (str "rest.HttpResponse") KInterface.

Definition MethodGet : list ascii := str "GET".
Definition MethodPost : list ascii := str "POST".
Definition MethodPut : list ascii := str "PUT".
Definition MethodPatch : list ascii := str "PATCH".
Definition MethodDelete : list ascii := str "DELETE".

Definition isHttpMethodBodyable (httpMethod : list ascii) : bool :=
if decide (httpMethod = MethodPost) then true
else if decide (httpMethod = MethodPut) then true
else if decide (httpMethod = MethodPatch) then true
else if decide (httpMethod = MethodDelete) then true
else false.

(** The panics of registration. *)
Inductive ConfigError : Type :=
| ErrNilHandler
| ErrInvalidPath
| ErrNotFunc
| ErrNumIn (numIn : nat)
| ErrNeedsTwoParameters
| ErrNeedsOneParameter
| ErrFirstParameter (t : Ty)
| ErrSecondParameterNotPointer (t : Ty)
| ErrNumOut (numOut : nat)
| ErrReturnType (t : Ty)
| ErrRegexp.

(** [if cond { panic(e) }] followed by the rest of the function: [Some e] is
  the panic, [None] a normal return. *)
Definition panic_if (cond : bool) (e : ConfigError) (rest : option ConfigError)
: option ConfigError :=
if cond then Some e else rest.

Notation "'panic_when' c 'by' e ';;' k" := (panic_if c e k)
(at level 10, c at level 99, e at level 99, k at level 200,
 format "'[v' 'panic_when'  c  'by'  e  ';;' '/' k ']'").

(** [validateHandler]: [None] when every check passes, otherwise the first
  panic in the order of the source. *)
Definition validateHandler (httpMethod : list ascii) (handlerFunctionType : RType)
: option ConfigError :=
match handlerFunctionType with
| ROther _ => Some ErrNotFunc
| RFunc ins outs =>
    let numIn := length ins in
    panic_when negb ((numIn =? 1)%nat || (numIn =? 2)%nat) by ErrNumIn numIn ;;
    panic_when isHttpMethodBodyable httpMethod && (numIn =? 1)%nat
      by ErrNeedsTwoParameters ;;
    panic_when negb (isHttpMethodBodyable httpMethod) && (numIn =? 2)%nat
      by ErrNeedsOneParameter ;;
    match ins with
    | [] => Some (ErrNumIn numIn)
    | firstParameterType :: more =>
        panic_when negb (bool_decide (firstParameterType = httpType))
          by ErrFirstParameter firstParameterType ;;
        let after_parameters :=
          let numOut := length outs in
          panic_when negb (numOut =? 1)%nat by ErrNumOut numOut ;;
          match outs with
          | [] => Some (ErrNumOut numOut)
          | returnType :: _ =>
              panic_when negb (bool_decide (returnType = httpResponseType))
                by ErrReturnType returnType ;;
              None
          end in
        if (numIn =? 2)%nat then
          match more with
          | secondParameterType :: _ =>
              panic_when negb (bool_decide (Ty_Kind secondParameterType = KPtr))
                by ErrSecondParameterNotPointer secondParameterType ;;
              after_parameters
          | [] => Some (ErrNumIn numIn)
          end
        else after_parameters
    end
end.

(** ** Conversions of integers to strings *)

(** The low eight bits of [z] as a byte. *)
Definition byte_of_Z (z : Z) : ascii :=
Ascii (Z.testbit z 0) (Z.testbit z 1) (Z.testbit z 2) (Z.testbit z 3)
      (Z.testbit z 4) (Z.testbit z 5) (Z.testbit z 6) (Z.testbit z 7).

(** The UTF-8 encoding of a code point below [0x110000]. *)
Definition utf8_encode (r : Z) : list ascii :=
if (r <? 128)%Z then [byte_of_Z r]
else if (r <? 2048)%Z then
  [byte_of_Z (Z.lor 192 (Z.shiftr r 6));
   byte_of_Z (Z.lor 128 (Z.land r 63))]
else if (r <? 65536)%Z then
  [byte_of_Z (Z.lor 224 (Z.shiftr r 12));
   byte_of_Z (Z.lor 128 (Z.land (Z.shiftr r 6) 63));
   byte_of_Z (Z.lor 128 (Z.land r 63))]
else
  [byte_of_Z (Z.lor 240 (Z.shiftr r 18));
   byte_of_Z (Z.lor 128 (Z.land (Z.shiftr r 12) 63));
   byte_of_Z (Z.lor 128 (Z.land (Z.shiftr r 6) 63));
   byte_of_Z (Z.lor 128 (Z.land r 63))].

(** A code point that UTF-8 encodes: in range and not a surrogate. *)
Definition valid_rune (r : Z) : bool :=
((0 <=? r)%Z && (r <? 55296)%Z) || ((57343 <? r)%Z && (r <=? 1114111)%Z).

(** The Go conversion [string(i)] of an [int]: the UTF-8 encoding of the
  code point [i], and of U+FFFD when [i] is no valid code point. *)
Definition string_of_int (i : Z) : list ascii :=
if valid_rune i then utf8_encode i else utf8_encode 65533.

Definition digit_char (d : Z) : ascii := byte_of_Z (48 + d).

(** The decimal digits of [n >= 0] in front of [acc]; [fuel] bounds the
  number of digits. *)
Fixpoint digits_loop (fuel : nat) (n : Z) (acc : list ascii) : list ascii :=
match fuel with
| O => acc
| S fuel' =>
    let acc' := digit_char (n mod 10) :: acc in
    if (n <? 10)%Z then acc' else digits_loop fuel' (n / 10) acc'
end.

(** [strconv.Itoa]: the decimal representation. *)
Definition Itoa (n : Z) : list ascii :=
if (n <? 0)%Z then "-" :: digits_loop (S (Z.to_nat (Z.log2 (- n)))) (- n) []
else digits_loop (S (Z.to_nat (Z.log2 n))) n [].

(** ** Responses, handlers, routes, filters and the dispatcher *)

Set Implicit Arguments.

Section Rest.

(** Go values that travel as request and response bodies, and the codecs of
    [encoding/json] and [encoding/xml], which are external. *)
Variable Value : Type.
Variable json_Marshal xml_Marshal : Value -> option (list ascii).
Variable json_Unmarshal xml_Unmarshal : list ascii -> Ty -> option Value.

(** *** The response sink: the calls made on an [http.ResponseWriter] *)

Inductive SinkOp : Type :=
| WriteHeader (statusCode : Z)
| HeaderSet (key value : list ascii)
| Write (data : list ascii).

(** An [io.Reader]: the bytes it yields, and whether it then fails instead
    of reporting the end of the data. *)
Record Reader : Type := mkReader {
  pending : list ascii;
  failing : bool
}.

(** *** Response envelopes (lines 24-182) *)

Record ResponseWriter : Type := mkResponseWriter {
  rw_customHeaders : list (list ascii * list ascii);
      (* the map, in the order in which [range] visits it *)
  rw_contentType : list ascii;
  rw_statusCode : Z;
  rw_responseBody : Value;
  rw_marshal : Value -> option (list ascii)
}.

Record FileResponseWriter : Type := mkFileResponseWriter {
  fw_contentType : list ascii;
  fw_statusCode : Z;
  fw_contentLength : Z;
  fw_file : Reader;
  fw_contentDisposition : list ascii
}.

Record TextResponseWriter : Type := mkTextResponseWriter {
  tw_customHeaders : list (list ascii * list ascii);
  tw_statusCode : Z;
  tw_responseBody : list ascii
}.

(** The implementations of interface [HttpResponse]. *)
Inductive HttpResponse : Type :=
| IsResponseWriter (r : ResponseWriter)
| IsFileResponseWriter (r : FileResponseWriter)
| IsNoContentResponseWriter
| IsTextResponseWriter (r : TextResponseWriter).

Definition set_custom_headers (hs : list (list ascii * list ascii))
  : list SinkOp :=
  map (fun kv => HeaderSet (fst kv) (snd kv)) hs.

(** Each [write] method, as the calls it adds to the sink. *)
Definition ResponseWriter_write (r : ResponseWriter) : list SinkOp :=
  [WriteHeader (rw_statusCode r);
   HeaderSet (str "Content-Type") (rw_contentType r)]
  ++ set_custom_headers (rw_customHeaders r)
  ++ match rw_marshal r (rw_responseBody r) with
     | Some marshallizedResponse => [Write marshallizedResponse]
     | None => []
     end.

Definition FileResponseWriter_write (r : FileResponseWriter) : list SinkOp :=
  (if (0 <? fw_contentLength r)%Z
   then [HeaderSet (str "Content-Length") (string_of_int (fw_contentLength r))]
   else [])
  ++ [HeaderSet (str "Content-Disposition") (fw_contentDisposition r);
      WriteHeader (fw_statusCode r);
      HeaderSet (str "Content-Type") (fw_contentType r);
      Write (pending (fw_file r))].      (* [io.Copy] *)

Definition StatusNoContent : Z := 204.

Definition NoContentResponseWriter_write : list SinkOp :=
  [WriteHeader StatusNoContent].

Definition TextResponseWriter_write (r : TextResponseWriter) : list SinkOp :=
  [WriteHeader (tw_statusCode r);
   HeaderSet (str "Content-Type") (str "text/plain")]
  ++ set_custom_headers (tw_customHeaders r)
  ++ [Write (tw_responseBody r)].

Definition write (impl : HttpResponse) (response : list SinkOp) : list SinkOp :=
  response ++
  match impl with
  | IsResponseWriter r => ResponseWriter_write r
  | IsFileResponseWriter r => FileResponseWriter_write r
  | IsNoContentResponseWriter => NoContentResponseWriter_write
  | IsTextResponseWriter r => TextResponseWriter_write r
  end.

Definition JsonResponse (statusCode : Z) (responseBody : Value)
    (customHeaders : list (list ascii * list ascii)) : HttpResponse :=
  IsResponseWriter
    (mkResponseWriter customHeaders (str "application/json") statusCode
       responseBody json_Marshal).

Definition XmlResponse (statusCode : Z) (responseBody : Value)
    (customHeaders : list (list ascii * list ascii)) : HttpResponse :=
  IsResponseWriter
    (mkResponseWriter customHeaders (str "application/xml") statusCode
       responseBody xml_Marshal).

Definition FileResponse (statusCode : Z) (contentType contentDisposition : list ascii)
    (contentLength : Z) (file : Reader) : HttpResponse :=
  IsFileResponseWriter
    (mkFileResponseWriter contentType statusCode contentLength file
       contentDisposition).

Definition NoContentResponse : HttpResponse := IsNoContentResponseWriter.

Definition TextResponse (statusCode : Z) (responseBody : list ascii)
  : HttpResponse :=
  IsTextResponseWriter (mkTextResponseWriter [] statusCode responseBody).

(** *** Requests and the state a request is served in *)

Record Request : Type := mkRequest {
  Method : list ascii;
  URL_Path : list ascii;
  Header_ContentType : list ascii       (* [Header.Get("Content-Type")] *)
}.

(** What the serving of one request can change: the response sink and the
    stream of the request body. *)
Record World : Type := mkWorld {
  sink : list SinkOp;
  body_stream : Reader
}.

Record Http : Type := mkHttp {
  Http_Request : Request;
  PathVariables : gmap (list ascii) (list ascii)
}.

(** What the dispatcher does, in order; filters and handlers are named so
    that their calls can be told apart. *)
Inductive Event : Type :=
| EvFilter (name : nat)
| EvExtractPathVariables
| EvReadBody
| EvUnmarshal
| EvHandler (name : nat) (numInputs : nat)
| EvEnvelopeWrite
| EvNotFound.

Record State : Type := mkState {
  world : World;
  events : list Event
}.

Definition record_event (e : Event) (st : State) : State :=
  mkState (world st) (events st ++ [e]).

Definition on_sink (f : list SinkOp -> list SinkOp) (st : State) : State :=
  mkState (mkWorld (f (sink (world st))) (body_stream (world st))) (events st).

(** A filter: application code that sees the sink and the request. *)
Record FilterFunc : Type := mkFilterFunc {
  filter_name : nat;
  filter_run : Request -> World -> bool * World
}.

(** The arguments of a handler call ([[]reflect.Value]). *)
Inductive Input : Type :=
| InHttp (http : Http)
| InBody (requestBody : Value).

(** The value handed to registration: its dynamic type and, when it is
    called, what it returns ([None]: a nil interface) and does.  The call is
    taken to return: a panic raised inside a handler, by the reflective call
    of a nil function value, or inside the write of an envelope is not
    modelled. *)
Record HandlerFunction : Type := mkHandlerFunction {
  handler_name : nat;
  handler_type : RType;
  handler_call : list Input -> World -> option HttpResponse * World
}.

(** *** Handler entries (lines 199-274) *)

Record CustomHandlerImpl : Type := mkCustomHandlerImpl {
  regexPath : Regexp;
  pathVariableNames : list PathVariable;
  requestBodyType : option Ty;            (* [None] is [nil] *)
  handlerValue : HandlerFunction
}.

Definition NumIn (t : RType) : nat :=
  match t with
  | RFunc ins _ => length ins
  | ROther _ => 0
  end.

Definition In_ (t : RType) (i : nat) : option Ty :=
  match t with
  | RFunc ins _ => ins !! i
  | ROther _ => None
  end.

(** [handlerFunction] is [None] for a nil interface value. *)
Definition NewCustomHandlerImpl (httpMethod path : list ascii)
    (handlerFunction : option HandlerFunction)
  : ConfigError + CustomHandlerImpl :=
  match handlerFunction with
  | None => inl ErrNilHandler
  | Some fn =>
      if negb (isValidPath path) then inl ErrInvalidPath
      else
        let handlerFunctionType := handler_type fn in
        match validateHandler httpMethod handlerFunctionType with
        | Some e => inl e
        | None =>
            match toRegexPath path with
            | None => inl ErrRegexp
            | Some re =>
                inr (mkCustomHandlerImpl
                       re
                       (extractPathVariableNames path)
                       (if (NumIn handlerFunctionType =? 2)%nat
                        then In_ handlerFunctionType 1 ≫= Ty_Elem
                        else None)
                       fn)
            end
        end
  end.

Definition GetRegexPath (h : CustomHandlerImpl) : Regexp := regexPath h.
Definition GetPathVariableNames (h : CustomHandlerImpl) : list PathVariable :=
  pathVariableNames h.
Definition HasRequestBody (h : CustomHandlerImpl) : bool :=
  bool_decide (requestBodyType h ≠ None).
Definition GetRequestBodyType (h : CustomHandlerImpl) : option Ty :=
  requestBodyType h.

Definition WriteHttpResponse (h : CustomHandlerImpl) (inputs : list Input)
    (st : State) : State :=
  let fn := handlerValue h in
  let st1 := record_event (EvHandler (handler_name fn) (length inputs)) st in
  let (result, w) := handler_call fn inputs (world st1) in
  let st2 := mkState w (events st1) in
  match result with
  | Some impl => on_sink (write impl) (record_event EvEnvelopeWrite st2)
  | None => st2
  end.

(** *** Routes (lines 276-316) *)

Definition NewRoutes : gmap (list ascii) (list CustomHandlerImpl) := ∅.

(** [routes[httpMethod]], which is nil for a missing key. *)
Definition entries (routes : gmap (list ascii) (list CustomHandlerImpl))
    (httpMethod : list ascii) : list CustomHandlerImpl :=
  default [] (routes !! httpMethod).

(** [addRoute] changes the map it is called on: the result is the map
    afterwards, with the panic if there was one.  The key is created before
    the handler is checked. *)
Definition addRoute (routes : gmap (list ascii) (list CustomHandlerImpl))
    (httpMethod path : list ascii) (handler : option HandlerFunction)
  : gmap (list ascii) (list CustomHandlerImpl) * option ConfigError :=
  let routes1 :=
    match routes !! httpMethod with
    | None => <[httpMethod := []]> routes
    | Some _ => routes
    end in
  match NewCustomHandlerImpl httpMethod path handler with
  | inl e => (routes1, Some e)
  | inr h => (<[httpMethod := entries routes1 httpMethod ++ [h]]> routes1, None)
  end.

Definition GET routes path handler := addRoute routes MethodGet path handler.
Definition POST routes path handler := addRoute routes MethodPost path handler.
Definition PUT routes path handler := addRoute routes MethodPut path handler.
Definition PATCH routes path handler := addRoute routes MethodPatch path handler.
Definition DELETE routes path handler := addRoute routes MethodDelete path handler.

(** *** Filters (lines 318-348) *)

Record Filters : Type := mkFilters {
  filters : gmap (list ascii) (list FilterFunc)
}.

Definition NewFilters : Filters :=
  mkFilters (<[str "post" := []]> (<[str "pre" := []]> ∅)).

Definition filters_at (fs : Filters) (key : list ascii) : list FilterFunc :=
  default [] (filters fs !! key).

(** A nil filter panics: [None]. *)
Definition AddPreFilter (fs : Filters) (filter : option FilterFunc)
  : option Filters :=
  match filter with
  | None => None
  | Some f =>
      Some (mkFilters (<[str "pre" := filters_at fs (str "pre") ++ [f]]> (filters fs)))
  end.

Definition AddPostFilter (fs : Filters) (filter : option FilterFunc)
  : option Filters :=
  match filter with
  | None => None
  | Some f =>
      Some (mkFilters (<[str "post" := filters_at fs (str "post") ++ [f]]> (filters fs)))
  end.

(** *** Binding the request body (lines 350-357, 495-508) *)

Definition unmarshal (contentType rawData : list ascii) (objectType : Ty)
  : option Value :=
  if decide (contentType = str "application/xml")
  then xml_Unmarshal rawData objectType
  else json_Unmarshal rawData objectType.

(** [ioutil.ReadAll]: everything left in the stream, or the read error;
    the stream is left empty. *)
Definition ReadAll (r : Reader) : option (list ascii) * Reader :=
  (if failing r then None else Some (pending r), mkReader [] false).

(** [None] is the error result. *)
Definition toRequestBodyObject (request : Request) (requestBodyType : Ty)
    (st : State) : option Value * State :=
  let (read, stream) := ReadAll (body_stream (world st)) in
  let st1 :=
    record_event EvReadBody
      (mkState (mkWorld (sink (world st)) stream) (events st)) in
  match read with
  | None => (None, st1)
  | Some bodyBytes =>
      (unmarshal (Header_ContentType request) bodyBytes requestBodyType,
       record_event EvUnmarshal st1)
  end.

Definition inputsWithoutRequestBody (http : Http) : list Input :=
  [InHttp http].

Definition inputsWithRequestBody (http : Http) (requestBody : Value)
  : list Input :=
  [InHttp http; InBody requestBody].

(** *** The dispatcher (lines 510-598) *)

Record Dispatcher : Type := mkDispatcher {
  routes : gmap (list ascii) (list CustomHandlerImpl);
  preFilters : list FilterFunc;
  postFilters : list FilterFunc
}.

(** [None]: the panic on nil routes. *)
Definition NewDispatcher
    (routes : option (gmap (list ascii) (list CustomHandlerImpl)))
    (fs : option Filters) : option Dispatcher :=
  match routes with
  | None => None
  | Some routes =>
      match fs with
      | None => Some (mkDispatcher routes [] [])
      | Some fs =>
          Some (mkDispatcher routes (filters_at fs (str "pre"))
                  (filters_at fs (str "post")))
      end
  end.

(** The loop of [getHandler]. *)
Fixpoint first_match (handlers : list CustomHandlerImpl)
    (calledPath : list ascii) : option CustomHandlerImpl :=
  match handlers with
  | [] => None
  | handler :: rest =>
      if MatchString (GetRegexPath handler) calledPath then Some handler
      else first_match rest calledPath
  end.

(** [None] is the error result of [getHandler]. *)
Definition getHandler (dispatcher : Dispatcher)
    (httpMethod calledPath : list ascii) : option CustomHandlerImpl :=
  first_match (entries (routes dispatcher) httpMethod) calledPath.

Fixpoint executeFilters (request : Request) (fs : list FilterFunc)
    (st : State) : bool * State :=
  match fs with
  | [] => (true, st)
  | filter :: rest =>
      let st1 := record_event (EvFilter (filter_name filter)) st in
      let (ok, w) := filter_run filter request (world st1) in
      let st2 := mkState w (events st1) in
      if negb ok then (false, st2) else executeFilters request rest st2
  end.

(** How [ServeHTTP] ends. *)
Inductive Outcome : Type :=
| Returned (st : State)
| Panicked (st : State).

Definition ServeHTTP (dispatcher : Dispatcher) (request : Request)
    (st : State) : Outcome :=
  let calledPath := URL_Path request in
  match getHandler dispatcher (Method request) calledPath with
  | None =>
      Returned (on_sink (fun s => s ++ [WriteHeader 404])
                  (record_event EvNotFound st))
  | Some handler =>
      let (ok, st1) := executeFilters request (preFilters dispatcher) st in
      if negb ok then Returned st1
      else
        let st2 := record_event EvExtractPathVariables st1 in
        match extractPathVariableValues calledPath
                (GetPathVariableNames handler) with
        | None => Panicked st2
        | Some pathVariableValues =>
            let http := mkHttp request pathVariableValues in
            if negb (HasRequestBody handler) then
              let st3 :=
                WriteHttpResponse handler (inputsWithoutRequestBody http) st2 in
              Returned (snd (executeFilters request (postFilters dispatcher) st3))
            else
              match GetRequestBodyType handler with
              | None => Panicked st2
              | Some bodyType =>
                  match toRequestBodyObject request bodyType st2 with
                  | (None, st3) => Returned st3
                  | (Some requestBody, st3) =>
                      let st4 :=
                        WriteHttpResponse handler
                          (inputsWithRequestBody http requestBody) st3 in
                      Returned
                        (snd (executeFilters request (postFilters dispatcher) st4))
                  end
              end
        end
  end.

End Rest.

Unset Implicit Arguments.

(** ** Notions used to state the properties *)

(** The characters that occur in the words of an expression. *)
Fixpoint alphabet (r : re) (c : ascii) : bool :=
match r with
| Void | Eps => false
| Class rs => in_class rs c
| Cat a b | Alt a b => alphabet a c || alphabet b c
| Star a => alphabet a c
end.

(** The path [/seg1/seg2/...] with the given segments. *)
Definition join_segments (segs : list (list ascii)) : list ascii :=
concat (map (cons "/") segs).

(** The number of separators in a path. *)
Definition count_slash (s : list ascii) : nat :=
length (filter (λ c, c = "/") s).

(** A segment of a valid template: a literal of [subPathPattern], or one in
    braces. *)
Definition good_segment (seg : list ascii) : Prop :=
lang subPathPattern seg
∨ ∃ name, seg = "{" :: name ++ ["}"] ∧ lang subPathPattern name.

(** The name inside a brace-wrapped segment: the segment without its first
    and last character, when these are the two braces. *)
Definition braced_name (seg : list ascii) : option (list ascii) :=
match seg with
| "{" :: inner =>
    match rev inner with
    | "}" :: eman => Some (rev eman)
    | _ => None
    end
| _ => None
end.

(** The path variables of a template with segments [segs], as the
    specification words them: one for each brace-wrapped segment, from left
    to right, with the index of the segment and its name. *)
Definition spec_path_variables (segs : list (list ascii)) : list PathVariable :=
omap id (imap (λ i seg, mkPathVariable (Z.of_nat i) <$> braced_name seg) segs).

(** What a segment of a template becomes in the pattern text, and in the
    parsed pattern. *)
Definition segment_text (seg : list ascii) : list ascii :=
if HasPrefix seg "{" then regexPart else seg.

Definition slash_item : item := ([("/", "/")], false).
Definition lit_item (c : ascii) : item := ([(c, c)], false).
Definition token_item : item :=
([("a", "z"); ("A", "Z"); ("0", "9"); ("_", "_"); ("-", "-")], true).

Definition segment_items (seg : list ascii) : list item :=
if HasPrefix seg "{" then [token_item] else map lit_item seg.

Definition template_items (segs : list (list ascii)) : list item :=
concat (map (λ seg, slash_item :: segment_items seg) segs).

(** An item that matches a separator only if it is the separator itself. *)
Definition slash_safe (it : item) : Prop :=
it = slash_item ∨ in_class (fst it) "/" = false.

(** A character of a literal segment. *)
Definition sub_char (c : ascii) : Prop := alphabet subPathPattern c = true.

(** The result types of a handler type. *)
Definition Outs (t : RType) : list Ty :=
match t with
| RFunc _ outs => outs
| ROther _ => []
end.

(** The rules on the declared shape of a handler, as the specification lists
    them; a value that is no function has no parameters. *)
Definition shape_violation (httpMethod : list ascii) (t : RType) : Prop :=
(isHttpMethodBodyable httpMethod = true ∧ NumIn t ≠ 2)
∨ (isHttpMethodBodyable httpMethod = false ∧ NumIn t ≠ 1)
∨ In_ t 0 ≠ Some httpType
∨ (∃ second, In_ t 1 = Some second ∧ Ty_Kind second ≠ KPtr)
∨ Outs t ≠ [httpResponseType].

(** The registries that registration can build: [NewRoutes], and the map
    left by any call of [addRoute], also one that panicked. *)
Inductive built {Value : Type}
  : gmap (list ascii) (list (CustomHandlerImpl Value)) → Prop :=
| built_new : built (NewRoutes Value)
| built_add routes httpMethod path handler :
    built routes → built (fst (addRoute routes httpMethod path handler)).

(** The order of the calls of [write] as the specification has it for every
    envelope: the status code, the content type, then the other headers,
    then at most one write of the body. *)
Definition is_header_set (op : SinkOp) : bool :=
match op with
| HeaderSet _ _ => true
| _ => false
end.

Definition is_body_write (op : SinkOp) : bool :=
match op with
| Write _ => true
| _ => false
end.

Definition claimed_write_order (ops : list SinkOp) : Prop :=
∃ statusCode contentType headers body,
  ops = WriteHeader statusCode
        :: HeaderSet (str "Content-Type") contentType
        :: headers ++ body
  ∧ forallb is_header_set headers = true
  ∧ forallb is_body_write body = true.

(** The rule of registration as the specification states it: a panic
    exactly for a handler whose shape breaks a rule. *)
Definition registration_claim {Value : Type}
    (routes : gmap (list ascii) (list (CustomHandlerImpl Value)))
    (httpMethod path : list ascii) (fn : HandlerFunction Value) : Prop :=
snd (addRoute routes httpMethod path (Some fn)) ≠ None
↔ shape_violation httpMethod (handler_type fn).

(** The top bit of a byte: set in every byte of a multi-byte UTF-8
    sequence, clear in ASCII. *)
Definition high_bit (c : ascii) : bool :=
match c with
| Ascii _ _ _ _ _ _ _ b => b
end.

Definition is_content_length (op : SinkOp) : bool :=
match op with
| HeaderSet key _ => bool_decide (key = str "Content-Length")
| _ => false
end.

(** C10 as the specification words it: for a positive content length the
    first call of a file envelope sets Content-Length to the UTF-8 encoding of
    the code point that has the content length as its number. *)
Definition content_length_claim (r : FileResponseWriter) : Prop :=
(0 < fw_contentLength r)%Z →
∃ rest,
  FileResponseWriter_write r =
  HeaderSet (str "Content-Length") (utf8_encode (fw_contentLength r)) :: rest.

(** [U+FFFD], the replacement character, and its UTF-8 encoding. *)
Definition RuneError : Z := 65533.
Definition RuneError_bytes : list ascii := [byte_of_Z 239; byte_of_Z 191; byte_of_Z 189].

(** ** A small application, for concrete instances

    Bodies are byte strings that the codecs pass through; an empty payload
    does not deserialize. *)
Module Demo.

Definition marshal (v : list ascii) : option (list ascii) := Some v.

Definition unmarshal_nonempty (rawData : list ascii) (t : Ty)
  : option (list ascii) :=
match rawData with
| [] => None
| _ => Some rawData
end.

(** [func(http *rest.Http) rest.HttpResponse] *)
Definition context_only : RType := RFunc [httpType] [httpResponseType].

(** [func(http *rest.Http, body *DemoBody) rest.HttpResponse] *)
Definition context_and_body : RType :=
RFunc [httpType; TPtr None (TNamed (str "DemoBody") KStruct)] [httpResponseType].

Definition getHandler : HandlerFunction (list ascii) :=
mkHandlerFunction 1 context_only
  (λ _ w, (Some (TextResponse (list ascii) 200 (str "hello")), w)).

Definition postHandler : HandlerFunction (list ascii) :=
mkHandlerFunction 2 context_and_body
  (λ inputs w,
     (Some (JsonResponse marshal 200
              (match inputs with
               | [_; InBody b] => b
               | _ => []
               end) []), w)).

Definition PATH : list ascii := str "/path/{id}".

Definition demo_routes : gmap (list ascii) (list (CustomHandlerImpl (list ascii))) :=
fst (POST (fst (GET (NewRoutes (list ascii)) PATH (Some getHandler)))
       PATH (Some postHandler)).

Definition pass_filter (name : nat) : FilterFunc :=
mkFilterFunc name (λ _ w, (true, w)).

(** Writes a status of its own and stops the request. *)
Definition reject_filter (name : nat) : FilterFunc :=
mkFilterFunc name
  (λ _ w, (false, mkWorld (sink w ++ [WriteHeader 403]) (body_stream w))).

Definition open_dispatcher : Dispatcher (list ascii) :=
mkDispatcher demo_routes [pass_filter 10] [pass_filter 20].

Definition guarded_dispatcher : Dispatcher (list ascii) :=
mkDispatcher demo_routes [pass_filter 10; reject_filter 11; pass_filter 12]
  [pass_filter 20].

Definition start (payload : list ascii) (fails : bool) : State :=
mkState (mkWorld [] (mkReader payload fails)) [].

Definition serve (d : Dispatcher (list ascii)) (request : Request) (st : State)
  : Outcome :=
ServeHTTP unmarshal_nonempty unmarshal_nonempty d request st.

End Demo.

(** ** Notions used to state further properties *)

(** A lower-case letter or a digit. *)
Definition is_lower_or_digit (c : ascii) : bool :=
in_class [("a", "z"); ("0", "9")] c.

(** The rest of a literal segment: letters and digits, with single hyphens
    between them only.  [after_hyphen] tells that the character before was
    a hyphen. *)
Fixpoint literal_tail (after_hyphen : bool) (s : list ascii) : bool :=
match s with
| [] => negb after_hyphen
| c :: s' =>
    if is_lower_or_digit c then literal_tail false s'
    else if Ascii.eqb c "-" then negb after_hyphen && literal_tail true s'
    else false
end.

(** A literal segment, in elementary terms: not empty, made of lower-case
    letters, digits and hyphens, with no hyphen at either end and no two
    hyphens in a row. *)
Definition is_literal (s : list ascii) : bool :=
match s with
| [] => false
| c :: s' => is_lower_or_digit c && literal_tail false s'
end.

(** A segment of a template in elementary terms: a literal, or a literal in
    braces. *)
Definition is_template_segment (seg : list ascii) : bool :=
is_literal seg
|| match seg with
   | "{" :: inner =>
       match rev inner with
       | "}" :: eman => is_literal (rev eman)
       | _ => false
       end
   | _ => false
   end.

(** A character of the token pattern [[a-zA-Z0-9_-]]. *)
Definition is_token_char (c : ascii) : bool := in_class (fst token_item) c.

(** A piece of a concrete path fits a segment of a template: any non-empty
    run of token characters for a segment in braces, the segment itself
    otherwise. *)
Definition fits (seg piece : list ascii) : Prop :=
if HasPrefix seg "{"
then piece ≠ [] ∧ Forall (λ c, is_token_char c = true) piece
else piece = seg.

(** [(-?[a-z0-9]+)], the group that [subPathPattern] repeats. *)
Definition block : re := Cat (Opt (Lit "-")) (Plus lower_or_digit).

(** A valid path in elementary terms: the root, or a slash followed by
    template segments separated by slashes. *)
Definition is_template_path (path : list ascii) : bool :=
bool_decide (path = str "/")
|| match Split path "/" with
   | [] :: seg :: segs => forallb is_template_segment (seg :: segs)
   | _ => false
   end.

(** A call of [AddPreFilter] or [AddPostFilter] with a filter that is not
    nil, and a chain of such calls on [NewFilters()]; [None] is a panic. *)
Inductive FilterAdd : Type :=
| AddPre (f : FilterFunc)
| AddPost (f : FilterFunc).

Definition add_filter (fs : option Filters) (call : FilterAdd) : option Filters :=
match fs with
| None => None
| Some fs =>
    match call with
    | AddPre f => AddPreFilter fs (Some f)
    | AddPost f => AddPostFilter fs (Some f)
    end
end.

Definition add_filters (calls : list FilterAdd) : option Filters :=
foldl add_filter (Some NewFilters) calls.

Definition pre_filters_of (calls : list FilterAdd) : list FilterFunc :=
omap (λ call, match call with AddPre f => Some f | AddPost _ => None end) calls.

Definition post_filters_of (calls : list FilterAdd) : list FilterFunc :=
omap (λ call, match call with AddPost f => Some f | AddPre _ => None end) calls.

(** The steps of one request as a state machine: where the dispatcher
    is, which step may follow, and where a request may end. *)
Inductive Phase : Type :=
| AtStart          (* nothing done yet *)
| NotFound         (* no route: status 404 written *)
| InPre            (* some pre-filter called *)
| Bound            (* path variables extracted *)
| BodyRead         (* request body read *)
| BodyBound        (* request body deserialized *)
| Called           (* handler called *)
| Written          (* envelope written *)
| InPost.          (* some post-filter called *)

Definition phase_step (p : Phase) (e : Event) : option Phase :=
match p, e with
| AtStart, EvNotFound => Some NotFound
| (AtStart | InPre), EvFilter _ => Some InPre
| (AtStart | InPre), EvExtractPathVariables => Some Bound
| Bound, EvReadBody => Some BodyRead
| Bound, EvHandler _ 1 => Some Called
| BodyRead, EvUnmarshal => Some BodyBound
| BodyBound, EvHandler _ 2 => Some Called
| Called, EvEnvelopeWrite => Some Written
| (Called | Written | InPost), EvFilter _ => Some InPost
| _, _ => None
end.

Fixpoint phase_run (p : Phase) (evs : list Event) : option Phase :=
match evs with
| [] => Some p
| e :: evs' =>
    match phase_step p e with
    | Some q => phase_run q evs'
    | None => None
    end
end.

Definition may_end (p : Phase) : bool :=
match p with
| AtStart | Bound => false
| _ => true
end.

Definition is_handler_call (e : Event) : bool :=
match e with
| EvHandler _ _ => true
| _ => false
end.

Definition is_write_header (op : SinkOp) : bool :=
match op with
| WriteHeader _ => true
| _ => false
end.

(** * Properties *)

(** ** The matcher decides language membership *)
Module RegexpFacts.

Lemma lang_void s : ¬ lang Void s.
Proof. inversion 1. Qed.

Lemma lang_eps_inv s : lang Eps s → s = [].
Proof. by inversion 1. Qed.

Lemma lang_class_inv rs s :
  lang (Class rs) s → ∃ c, s = [c] ∧ in_class rs c = true.
Proof. inversion 1; subst; eauto. Qed.

Lemma lang_cat_inv a b s :
  lang (Cat a b) s → ∃ s1 s2, s = s1 ++ s2 ∧ lang a s1 ∧ lang b s2.
Proof. inversion 1; subst; eauto. Qed.

Lemma lang_alt_inv a b s : lang (Alt a b) s → lang a s ∨ lang b s.
Proof. inversion 1; subst; eauto. Qed.

Lemma lang_lit c s : lang (Lit c) s ↔ s = [c].
Proof.
  unfold Lit. split.
  - intros (d & -> & Hd)%lang_class_inv. simpl in Hd.
    rewrite orb_false_r in Hd. unfold in_range in Hd. simpl in Hd.
    apply andb_prop in Hd as [H1 H2].
    apply Nat.leb_le in H1. apply Nat.leb_le in H2.
    f_equal. rewrite <- (ascii_nat_embedding d), <- (ascii_nat_embedding c).
    f_equal. lia.
  - intros ->. constructor. simpl. unfold in_range. simpl.
    rewrite Nat.leb_refl. done.
Qed.

Lemma nullable_spec r : nullable r = true ↔ lang r [].
Proof.
  induction r as [| |rs|a IHa b IHb|a IHa b IHb|a IHa]; simpl.
  - split; [done | by intros ?%lang_void].
  - split; [constructor | done].
  - split; [done | by intros (c & ? & _)%lang_class_inv].
  - rewrite andb_true_iff, IHa, IHb. split.
    + intros [Ha Hb]. by apply (lang_cat a b [] []).
    + intros (s1 & s2 & Hs & Ha & Hb)%lang_cat_inv.
      symmetry in Hs. apply app_eq_nil in Hs as [-> ->]. done.
  - rewrite orb_true_iff, IHa, IHb. split.
    + intros [?|?]; [by apply lang_alt_l | by apply lang_alt_r].
    + apply lang_alt_inv.
  - split; [constructor | done].
Qed.

Lemma mkCat_spec a b s : lang (mkCat a b) s ↔ lang (Cat a b) s.
Proof.
  assert (Hl : ∀ x, lang (Cat Void x) s ↔ lang Void s).
  { intros x. split; [|by intros ?%lang_void].
    by intros (? & ? & _ & ?%lang_void & _)%lang_cat_inv. }
  assert (Hr : ∀ x, lang (Cat x Void) s ↔ lang Void s).
  { intros x. split; [|by intros ?%lang_void].
    by intros (? & ? & _ & _ & ?%lang_void)%lang_cat_inv. }
  assert (He : ∀ x, lang (Cat Eps x) s ↔ lang x s).
  { intros x. split.
    - by intros (? & ? & -> & ->%lang_eps_inv & ?)%lang_cat_inv.
    - intros ?. apply (lang_cat Eps x [] s); [constructor | done]. }
  destruct a, b; simpl; rewrite ?Hl, ?Hr, ?He; done.
Qed.

Lemma mkAlt_spec a b s : lang (mkAlt a b) s ↔ lang (Alt a b) s.
Proof.
  assert (Hl : ∀ x, lang (Alt Void x) s ↔ lang x s).
  { intros x. split; [|by apply lang_alt_r].
    by intros [?%lang_void|?]%lang_alt_inv. }
  assert (Hr : ∀ x, lang (Alt x Void) s ↔ lang x s).
  { intros x. split; [|by apply lang_alt_l].
    by intros [?|?%lang_void]%lang_alt_inv. }
  destruct a, b; simpl; rewrite ?Hl, ?Hr; done.
Qed.

(** A non-empty word of a starred language starts with a non-empty word
    of the language. *)
Lemma lang_star_cons a c s :
  lang (Star a) (c :: s) →
  ∃ s1 s2, s = s1 ++ s2 ∧ lang a (c :: s1) ∧ lang (Star a) s2.
Proof.
  intros H. remember (Star a) as r eqn:Hr. remember (c :: s) as w eqn:Hw.
  revert Hr Hw.
  induction H as [| | | | | |a' u t Hu _ Ht IH]; try done.
  intros [= ->] Hw. destruct u as [|d u]; simpl in Hw.
  - by apply IH.
  - injection Hw as -> <-. eauto.
Qed.

Lemma deriv_spec c r s : lang (deriv c r) s ↔ lang r (c :: s).
Proof.
  revert s.
  induction r as [| |rs|a IHa b IHb|a IHa b IHb|a IHa]; intros s; simpl.
  - split; by intros ?%lang_void.
  - split; [by intros ?%lang_void | by intros ?%lang_eps_inv].
  - destruct (in_class rs c) eqn:Hc; split.
    + intros ->%lang_eps_inv. by constructor.
    + intros (d & [= -> ->] & _)%lang_class_inv. constructor.
    + by intros ?%lang_void.
    + intros (d & [= -> ->] & ?)%lang_class_inv. congruence.
  - assert (Hcat : lang (Cat (deriv c a) b) s ↔
                   ∃ s1 s2, s = s1 ++ s2 ∧ lang a (c :: s1) ∧ lang b s2).
    { split.
      - intros (s1 & s2 & -> & H1 & H2)%lang_cat_inv.
        exists s1, s2. by rewrite <- IHa.
      - intros (s1 & s2 & -> & H1 & H2). constructor; [by apply IHa | done]. }
    destruct (nullable a) eqn:Hn.
    + rewrite mkAlt_spec. split.
      * intros [H|H]%lang_alt_inv.
        -- apply mkCat_spec, Hcat in H as (s1 & s2 & -> & H1 & H2).
           by apply (lang_cat a b (c :: s1) s2).
        -- apply (lang_cat a b [] (c :: s)); [by apply nullable_spec | by apply IHb].
      * intros (s1 & s2 & Hs & H1 & H2)%lang_cat_inv.
        destruct s1 as [|d s1]; simpl in Hs.
        -- subst s2. apply lang_alt_r. by apply IHb.
        -- injection Hs as <- ->. apply lang_alt_l, mkCat_spec, Hcat. eauto.
    + rewrite mkCat_spec, Hcat. split.
      * intros (s1 & s2 & -> & H1 & H2). by apply (lang_cat a b (c :: s1) s2).
      * intros (s1 & s2 & Hs & H1 & H2)%lang_cat_inv.
        destruct s1 as [|d s1]; simpl in Hs.
        -- apply nullable_spec in H1. congruence.
        -- injection Hs as <- ->. eauto.
  - rewrite mkAlt_spec. split.
    + intros [H|H]%lang_alt_inv; [apply lang_alt_l, IHa | apply lang_alt_r, IHb]; done.
    + intros [H|H]%lang_alt_inv; [apply lang_alt_l, IHa | apply lang_alt_r, IHb]; done.
  - rewrite mkCat_spec. split.
    + intros (s1 & s2 & -> & H1 & H2)%lang_cat_inv.
      apply IHa in H1. by apply (lang_star_app a (c :: s1) s2).
    + intros (s1 & s2 & -> & H1 & H2)%lang_star_cons.
      constructor; [by apply IHa | done].
Qed.

Lemma full_match_spec r s : full_match r s = true ↔ lang r s.
Proof.
  revert r. induction s as [|c s IH]; intros r; simpl.
  - apply nullable_spec.
  - by rewrite IH, deriv_spec.
Qed.

Lemma prefix_match_spec r s :
  prefix_match r s = true ↔ ∃ p q, s = p ++ q ∧ lang r p.
Proof.
  revert r. induction s as [|c s IH]; intros r; simpl.
  - rewrite orb_false_r, nullable_spec. split.
    + intros H. by exists [], [].
    + intros (p & q & Hs & H). symmetry in Hs.
      apply app_eq_nil in Hs as [-> _]. done.
  - rewrite orb_true_iff, nullable_spec, IH. split.
    + intros [H|(p & q & -> & H)].
      * by exists [], (c :: s).
      * exists (c :: p), q. by rewrite <- deriv_spec.
    + intros (p & q & Hs & H). destruct p as [|d p]; simpl in Hs.
      * by left.
      * injection Hs as <- ->. right. exists p, q. by rewrite deriv_spec.
Qed.

(** What a match at the start of [s] is. *)
Lemma match_here_spec R s :
  match_here R s = true ↔
  ∃ mid post, s = mid ++ post ∧ lang (body R) mid
              ∧ (anchor_end R = true → post = []).
Proof.
  unfold match_here. destruct (anchor_end R).
  - rewrite full_match_spec. split.
    + intros H. exists s, []. by rewrite app_nil_r.
    + intros (mid & post & -> & H & Hp). rewrite Hp, app_nil_r; done.
  - rewrite prefix_match_spec. split.
    + intros (p & q & -> & H). by exists p, q.
    + intros (p & q & -> & H & _). by exists p, q.
Qed.

Lemma match_from_spec R s :
  match_from R s = true ↔
  ∃ pre mid post, s = pre ++ mid ++ post ∧ lang (body R) mid
                  ∧ (anchor_end R = true → post = []).
Proof.
  induction s as [|c s IH]; simpl.
  - rewrite orb_false_r, match_here_spec. split.
    + intros (mid & post & Hs & H). by exists [], mid, post.
    + intros (pre & mid & post & Hs & H). symmetry in Hs.
      apply app_eq_nil in Hs as [-> Hs]. by exists mid, post.
  - rewrite orb_true_iff, match_here_spec, IH. split.
    + intros [(mid & post & Hs & H)|(pre & mid & post & -> & H)].
      * by exists [], mid, post.
      * by exists (c :: pre), mid, post.
    + intros (pre & mid & post & Hs & H). destruct pre as [|d pre]; simpl in Hs.
      * left. by exists mid, post.
      * injection Hs as <- ->. right. by exists pre, mid, post.
Qed.

(** [MatchString] accepts the strings that contain a word of the pattern's
    language, at the start or up to the end where the pattern is
    anchored. *)
Lemma MatchString_spec R s :
  MatchString R s = true ↔
  ∃ pre mid post, s = pre ++ mid ++ post ∧ lang (body R) mid
                  ∧ (anchor_begin R = true → pre = [])
                  ∧ (anchor_end R = true → post = []).
Proof.
  unfold MatchString. destruct (anchor_begin R).
  - rewrite match_here_spec. split.
    + intros (mid & post & -> & H & Hp). by exists [], mid, post.
    + intros (pre & mid & post & -> & H & Hb & He). rewrite Hb by done.
      by exists mid, post.
  - rewrite match_from_spec. split.
    + intros (pre & mid & post & -> & H & Hp). by exists pre, mid, post.
    + intros (pre & mid & post & -> & H & _ & He). by exists pre, mid, post.
Qed.

End RegexpFacts.

(** ** Splitting and joining paths *)
Module PathFacts.
Import RegexpFacts.

Lemma lang_alphabet r s : lang r s → Forall (λ c, alphabet r c = true) s.
Proof.
induction 1; simpl in *; try done.
- by constructor.
- apply Forall_app. split; eapply Forall_impl; eauto; simpl; intros ? ->;
    [done | apply orb_true_r].
- eapply Forall_impl; eauto. simpl. by intros ? ->.
- eapply Forall_impl; eauto. simpl. intros ? ->. apply orb_true_r.
- by apply Forall_app.
Qed.

Lemma Split_cons_sep s : Split ("/" :: s) "/" = [] :: Split s "/".
Proof. reflexivity. Qed.

Lemma Split_not_nil s sep : Split s sep ≠ [].
Proof. destruct s as [|c s]; simpl; [done|]. by repeat case_match. Qed.

Lemma Split_app_plain w s :
Forall (λ c, c ≠ "/") w →
Split (w ++ s) "/" =
  match Split s "/" with
  | p :: ps => (w ++ p) :: ps
  | [] => [w]
  end.
Proof.
induction 1 as [|c w Hc _ IH]; simpl.
- pose proof (Split_not_nil s "/"). by destruct (Split s "/").
- apply Ascii.eqb_neq in Hc. rewrite Hc, IH.
  pose proof (Split_not_nil s "/"). by destruct (Split s "/").
Qed.

Lemma Split_join segs :
Forall (Forall (λ c, c ≠ "/")) segs →
Split (join_segments segs) "/" = [] :: segs.
Proof.
unfold join_segments. induction 1 as [|seg segs Hseg _ IH]; [done|].
simpl. change (Ascii.eqb "/" "/") with true. cbv iota.
rewrite Split_app_plain, IH, app_nil_r; done.
Qed.

Lemma count_slash_app s t : count_slash (s ++ t) = count_slash s + count_slash t.
Proof. unfold count_slash. by rewrite filter_app, length_app. Qed.

Lemma count_slash_plain w : Forall (λ c, c ≠ "/") w → count_slash w = 0.
Proof.
unfold count_slash. induction 1 as [|c w Hc _ IH]; [done|].
by rewrite filter_cons_False.
Qed.

Lemma Split_length s : length (Split s "/") = S (count_slash s).
Proof.
unfold count_slash. induction s as [|c s IH]; [done|]. simpl.
destruct (Ascii.eqb c "/") eqn:Hc.
- apply Ascii.eqb_eq in Hc as ->. rewrite filter_cons_True by done.
  simpl. by rewrite IH.
- apply Ascii.eqb_neq in Hc. rewrite filter_cons_False by done.
  pose proof (Split_not_nil s "/"). destruct (Split s "/"); [done|].
  by rewrite <- IH.
Qed.

(** *** The shape of valid templates *)

Lemma sub_char_plain c :
sub_char c →
c ≠ "/" ∧ c ≠ "{" ∧ c ≠ "}" ∧ c ≠ "010" ∧ is_meta c = false.
Proof.
unfold sub_char. intros H.
repeat split; try (intros ->; by vm_compute in H).
destruct c as [[] [] [] [] [] [] [] []]; try done; by vm_compute in H.
Qed.

Lemma sub_lang_chars name :
lang subPathPattern name → name ≠ [] ∧ Forall sub_char name.
Proof.
intros H. split.
- intros ->. by apply nullable_spec in H.
- by apply lang_alphabet.
Qed.

Lemma good_segment_chars seg :
good_segment seg →
seg ≠ [] ∧ Forall (λ c, c ≠ "/" ∧ c ≠ "010") seg.
Proof.
intros [H|(name & -> & H)]; apply sub_lang_chars in H as [Hne Hall].
- split; [done|]. eapply Forall_impl; [done|].
  intros c Hc%sub_char_plain. tauto.
- split; [done|]. constructor; [done|]. apply Forall_app. split.
  + eapply Forall_impl; [done|]. intros c Hc%sub_char_plain. tauto.
  + by repeat constructor.
Qed.

Lemma good_segment_no_slash segs :
Forall good_segment segs → Forall (Forall (λ c, c ≠ "/")) segs.
Proof.
intros H. eapply Forall_impl; [done|]. intros seg [_ Hs]%good_segment_chars.
eapply Forall_impl; [done|]. simpl. tauto.
Qed.

Lemma segmentPattern_inv w :
lang segmentPattern w → ∃ seg, w = "/" :: seg ∧ good_segment seg.
Proof.
unfold segmentPattern.
intros (s1 & s2 & -> & ->%lang_lit & [H|H]%lang_alt_inv)%lang_cat_inv.
- apply lang_cat_inv in H as (t1 & t2 & -> & ->%lang_lit & H).
  apply lang_cat_inv in H as (name & t3 & -> & H & ->%lang_lit).
  exists ("{" :: name ++ ["}"]). split; [done|]. right. eauto.
- exists s2. split; [done|]. by left.
Qed.

Lemma star_segments_inv w :
lang (Star segmentPattern) w →
∃ segs, w = join_segments segs ∧ Forall good_segment segs.
Proof.
intros H. remember (Star segmentPattern) as r eqn:Hr. revert Hr.
induction H as [| | | | | |a u t Hu _ Ht IH]; try done.
- intros _. by exists [].
- intros [= ->]. destruct (IH eq_refl) as (segs & -> & Hsegs).
  apply segmentPattern_inv in Hu as (seg & -> & Hseg).
  exists (seg :: segs). split; [done | by constructor].
Qed.

Lemma isValidPath_shape path :
isValidPath path = true →
path = str "/"
∨ ∃ segs, segs ≠ [] ∧ path = join_segments segs ∧ Forall good_segment segs.
Proof.
unfold isValidPath. case_decide as Hroot; [by left|]. intros H. right.
apply MatchString_spec in H as (pre & mid & post & -> & H & Hb & He).
rewrite (Hb eq_refl), (He eq_refl), app_nil_r. simpl in *.
apply lang_cat_inv in H as (u & t & -> & Hu & Ht).
apply segmentPattern_inv in Hu as (seg & -> & Hseg).
apply star_segments_inv in Ht as (segs & -> & Hsegs).
exists (seg :: segs). split; [done|]. split; [done | by constructor].
Qed.

(** *** The variables of a valid template *)

Lemma Replace_first_absent w c rest :
Forall (λ d, d ≠ c) w → Replace_first (w ++ c :: rest) c = w ++ rest.
Proof.
induction 1 as [|d w Hd _ IH]; simpl.
- by rewrite Ascii.eqb_refl.
- apply Ascii.eqb_neq in Hd. by rewrite Hd, IH.
Qed.

Lemma removeBraces_braced name :
Forall sub_char name → removeBraces ("{" :: name ++ ["}"]) = name.
Proof.
intros H. unfold removeBraces.
change ("{" :: name ++ ["}"]) with (("{" :: name) ++ "}" :: []).
rewrite Replace_first_absent, app_nil_r; [done|].
constructor; [done|]. eapply Forall_impl; [done|].
intros c Hc%sub_char_plain. tauto.
Qed.

Lemma braced_name_braced name : braced_name ("{" :: name ++ ["}"]) = Some name.
Proof. simpl. rewrite rev_app_distr. simpl. by rewrite rev_involutive. Qed.

Lemma sub_segment_head seg :
lang subPathPattern seg → HasPrefix seg "{" = false ∧ braced_name seg = None.
Proof.
intros [Hne Hall]%sub_lang_chars. destruct seg as [|c seg]; [done|].
apply Forall_cons in Hall as [Hc%sub_char_plain _].
assert (c ≠ "{") as Hb by tauto. simpl. split.
- by apply Ascii.eqb_neq.
- destruct c as [[] [] [] [] [] [] [] []]; done.
Qed.

Lemma extract_names_loop_spec segs :
Forall good_segment segs →
∀ i : nat,
  extract_names_loop (Z.of_nat i + 1) segs =
  omap id (imap (λ j seg, mkPathVariable (Z.of_nat (i + j)) <$> braced_name seg)
             segs).
Proof.
induction 1 as [|seg segs Hseg _ IH]; intros i; [done|].
rewrite imap_cons. simpl.
replace (Z.of_nat i + 1 + 1)%Z with (Z.of_nat (S i) + 1)%Z by lia.
rewrite IH.
rewrite (imap_ext _ ((λ j seg, mkPathVariable (Z.of_nat (i + j)) <$> braced_name seg) ∘ S))
  by (intros; simpl; do 3 f_equal; lia).
destruct Hseg as [H|(name & -> & H)].
- apply sub_segment_head in H as [-> ->]. done.
- rewrite braced_name_braced, removeBraces_braced by by apply sub_lang_chars.
  simpl. do 3 f_equal; lia.
Qed.

Lemma braced_count (f : nat → list ascii → PathVariable) segs :
length (omap id (imap (λ i seg, f i <$> braced_name seg) segs)) =
length (filter (λ seg, is_Some (braced_name seg)) segs).
Proof.
revert f. induction segs as [|seg segs IH]; intros f; [done|].
rewrite imap_cons. simpl.
destruct (braced_name seg) as [name|] eqn:Hn; simpl.
- rewrite filter_cons_True by (by rewrite Hn). simpl. f_equal.
  apply (IH (f ∘ S)).
- rewrite filter_cons_False by (rewrite Hn; by intros [? ?]).
  apply (IH (f ∘ S)).
Qed.

(** *** The pattern generated for a valid template *)

Lemma closes_braced name rest :
Forall sub_char name → closes (name ++ "}" :: rest) = true.
Proof.
induction 1 as [|c name Hc%sub_char_plain _ IH]; [done|]. simpl.
destruct Hc as (_ & _ & ?%Ascii.eqb_neq & ?%Ascii.eqb_neq & _).
by repeat case_match.
Qed.

Lemma replace_scan_to_close name rest repl :
Forall sub_char name →
replace_scan SkipToClose repl (name ++ "}" :: rest) = replace_scan Outside repl rest.
Proof.
induction 1 as [|c name Hc%sub_char_plain _ IH]; [done|]. simpl.
destruct Hc as (_ & _ & ->%Ascii.eqb_neq & _). done.
Qed.

Lemma replace_scan_plain w rest repl :
Forall (λ c, c ≠ "{") w →
replace_scan Outside repl (w ++ rest) = w ++ replace_scan Outside repl rest.
Proof.
induction 1 as [|c w Hc%Ascii.eqb_neq _ IH]; [done|]. simpl.
by rewrite Hc, IH.
Qed.

Lemma replace_scan_braced name rest repl :
name ≠ [] → Forall sub_char name →
replace_scan Outside repl ("{" :: name ++ "}" :: rest) =
repl ++ replace_scan Outside repl rest.
Proof.
intros Hne Hall. destruct name as [|x name]; [done|].
apply Forall_cons in Hall as [Hx%sub_char_plain Hall].
destruct Hx as (_ & _ & _ & Hnl%Ascii.eqb_neq & _).
cbn [replace_scan app]. change (Ascii.eqb "{" "{") with true. cbv iota.
rewrite Hnl, closes_braced by done. simpl.
by rewrite replace_scan_to_close.
Qed.

Lemma ReplaceAllString_join segs :
Forall good_segment segs →
ReplaceAllString (join_segments segs) regexPart =
concat (map (λ seg, "/" :: segment_text seg) segs).
Proof.
unfold ReplaceAllString, join_segments.
induction 1 as [|seg segs Hseg _ IH]; [done|].
cbn [map concat]. rewrite <- !app_comm_cons.
change ("/" :: ?l) with (["/"] ++ l) at 1.
rewrite replace_scan_plain by by repeat constructor.
cbn [app]. f_equal. unfold segment_text.
destruct Hseg as [H|(name & -> & H)].
- destruct (sub_segment_head _ H) as [-> _].
  apply sub_lang_chars in H as [_ Hall].
  rewrite replace_scan_plain, IH; [done|].
  eapply Forall_impl; [done|]. intros c Hc%sub_char_plain. tauto.
- apply sub_lang_chars in H as [Hne Hall].
  change (HasPrefix ("{" :: name ++ ["}"]) "{") with true. cbv iota.
  rewrite <- app_comm_cons, <- app_assoc.
  change (["}"] ++ ?l) with ("}" :: l).
  by rewrite replace_scan_braced, IH.
Qed.

Lemma parse_plain c acc s :
is_meta c = false → parse None acc (c :: s) = parse None (lit_item c :: acc) s.
Proof. destruct c as [[] [] [] [] [] [] [] []]; done. Qed.

Lemma parse_plain_app w acc s :
Forall (λ c, is_meta c = false) w →
parse None acc (w ++ s) = parse None (rev (map lit_item w) ++ acc) s.
Proof.
intros H. revert acc. induction H as [|c w Hc _ IH]; intros acc; [done|].
rewrite <- app_comm_cons, parse_plain, IH by done. simpl.
by rewrite <- app_assoc.
Qed.

Lemma parse_token acc s :
parse None acc (regexPart ++ s) = parse None (token_item :: acc) s.
Proof. reflexivity. Qed.

Lemma parse_template segs acc :
Forall good_segment segs →
parse None acc (concat (map (λ seg, "/" :: segment_text seg) segs)) =
Some (rev acc ++ template_items segs).
Proof.
intros H. revert acc. induction H as [|seg segs Hseg _ IH]; intros acc.
- simpl. by rewrite app_nil_r.
- cbn [map concat]. rewrite <- app_comm_cons, parse_plain by done.
  unfold template_items. cbn [map concat]. fold (template_items segs).
  unfold segment_text, segment_items.
  destruct Hseg as [Hs|(name & -> & Hs)].
  + destruct (sub_segment_head _ Hs) as [-> _].
    apply sub_lang_chars in Hs as [_ Hall].
    rewrite parse_plain_app, IH.
    * rewrite rev_app_distr, rev_involutive. simpl.
      by rewrite <- !app_assoc.
    * eapply Forall_impl; [done|]. intros c Hc%sub_char_plain. tauto.
  + simpl HasPrefix. cbv iota. rewrite parse_token, IH. simpl.
    by rewrite <- !app_assoc.
Qed.

(** The compiled matcher of a valid template with segments [segs]. *)
Lemma toRegexPath_join segs :
Forall good_segment segs →
∃ text,
  toRegexPath (join_segments segs) =
  Some (mkRegexp text false false (re_of_items (template_items segs))).
Proof.
intros H. unfold toRegexPath, MustCompile.
rewrite ReplaceAllString_join, parse_template by done. eauto.
Qed.

(** *** Separators in the paths that a template's matcher accepts *)

Lemma in_class_single c d : in_class [(c, c)] d = true → d = c.
Proof.
intros H. assert (lang (Lit c) [d]) as Hl by by constructor.
apply lang_lit in Hl. by injection Hl.
Qed.

Lemma item_lang_chars (it : item) s :
lang (re_of_item it) s → Forall (λ c, in_class (fst it) c = true) s.
Proof.
intros H%lang_alphabet. eapply Forall_impl; [done|].
destruct it as [rs []]; simpl; intros c Hc; [|done].
by destruct (in_class rs c).
Qed.

Lemma items_slashes items mid :
Forall slash_safe items →
lang (re_of_items items) mid →
count_slash mid = length (filter (λ it, it = slash_item) items).
Proof.
intros H. revert mid. induction H as [|it items Hit _ IH]; intros mid; simpl.
- by intros ->%lang_eps_inv.
- intros (s1 & s2 & -> & H1 & H2)%lang_cat_inv.
  rewrite count_slash_app, (IH _ H2). destruct Hit as [->|Hit].
  + apply (lang_lit "/") in H1 as ->. by rewrite filter_cons_True.
  + rewrite filter_cons_False by (by intros ->).
    rewrite count_slash_plain; [done|].
    apply item_lang_chars in H1. eapply Forall_impl; [done|].
    simpl. intros c Hc ->. congruence.
Qed.

Lemma lit_item_safe c : c ≠ "/" → slash_safe (lit_item c) ∧ lit_item c ≠ slash_item.
Proof.
intros Hc. split.
- right. simpl. destruct (in_class [(c, c)] "/") eqn:E; [|done].
  by apply in_class_single in E.
- by intros [= ->].
Qed.

Lemma template_items_slashes segs :
Forall good_segment segs →
Forall slash_safe (template_items segs)
∧ length (filter (λ it, it = slash_item) (template_items segs)) = length segs.
Proof.
unfold template_items.
induction 1 as [|seg segs Hseg _ [IH1 IH2]]; [done|].
cbn [map concat]. rewrite <- app_comm_cons, filter_cons_True by done.
rewrite filter_app, length_cons, length_app, IH2.
assert (Forall slash_safe (segment_items seg)
        ∧ filter (λ it, it = slash_item) (segment_items seg) = []) as [Hs Hf].
{ unfold segment_items. destruct Hseg as [Hs|(name & -> & Hs)].
  - destruct (sub_segment_head _ Hs) as [-> _].
    apply sub_lang_chars in Hs as [_ Hall].
    induction Hall as [|c w Hc%sub_char_plain _ [IHa IHb]]; [done|].
    destruct (lit_item_safe c) as [? ?]; [tauto|]. simpl. split.
    + by constructor.
    + by rewrite filter_cons_False.
  - simpl. split; [repeat constructor; by right | done]. }
rewrite Hf. split; [|done].
constructor; [by left|]. by apply Forall_app.
Qed.

(** Every word of the matcher of a valid template has as many separators
    as the template has segments. *)
Lemma template_lang_slashes segs mid :
Forall good_segment segs →
lang (re_of_items (template_items segs)) mid →
count_slash mid = length segs.
Proof.
intros H Hm. destruct (template_items_slashes segs H) as [Hsafe Hlen].
by rewrite (items_slashes _ _ Hsafe Hm).
Qed.

(** *** Indices of path variables *)

Lemma extract_names_loop_bound parts k :
(0 <= k)%Z →
Forall (λ v, (k <= pathIndex v + 1 < k + Z.of_nat (length parts))%Z)
  (extract_names_loop k parts).
Proof.
revert k. induction parts as [|part parts IH]; intros k Hk; simpl; [done|].
assert (Forall (λ v, (k <= pathIndex v + 1 < k + Z.of_nat (S (length parts)))%Z)
          (extract_names_loop (k + 1) parts)) as Hrest.
{ eapply Forall_impl; [apply IH; lia|]. simpl. lia. }
destruct (HasPrefix part "{"); [|done].
constructor; [simpl; lia | done].
Qed.

Lemma extract_values_loop_in_range parts vars acc :
Forall (λ v, (0 <= pathIndex v + 1 < Z.of_nat (length parts))%Z) vars →
is_Some (extract_values_loop parts vars acc).
Proof.
intros H. revert acc. induction H as [|v vars Hv _ IH]; intros acc; simpl.
- done.
- unfold index_parts. destruct (Z.ltb_spec (pathIndex v + 1) 0); [lia|].
  destruct (lookup_lt_is_Some_2 parts (Z.to_nat (pathIndex v + 1))) as [x ->];
    [lia|]. apply IH.
Qed.

End PathFacts.

(** ** The cases of rest_test.go *)

Example TestIsHttpMethodBodyable :
isHttpMethodBodyable (str "") = false
∧ isHttpMethodBodyable (str "GET") = false
∧ isHttpMethodBodyable (str "POST") = true.
Proof. by vm_compute. Qed.

Example TestIsValidPath :
isValidPath (str "") = false
∧ isValidPath (str "/{}") = false
∧ isValidPath (str "/") = true
∧ isValidPath (str "/a/{mo-ck1}/bbb/{m-o-ck2}/a-b-c1/{mock3}") = true.
Proof. by vm_compute. Qed.

Example TestExtractPathVariableNames :
extractPathVariableNames (str "/a/{mo-ck1}/bbb/{m-o-ck2}/a-b-c1/{mock3}")
= [mkPathVariable 1 (str "mo-ck1"); mkPathVariable 3 (str "m-o-ck2");
   mkPathVariable 5 (str "mock3")]
∧ extractPathVariableNames (str "/") = [].
Proof. by vm_compute. Qed.

Example TestExtractPathVariableValues :
extractPathVariableValues (str "/a/111111/bbb/222222/a-b-c1/333333")
  [mkPathVariable 1 (str "mo-ck1"); mkPathVariable 3 (str "m-o-ck2");
   mkPathVariable 5 (str "mock3")]
= Some (<[str "mock3" := str "333333"]>
          (<[str "m-o-ck2" := str "222222"]>
             (<[str "mo-ck1" := str "111111"]> ∅)))
∧ extractPathVariableValues (str "/a/111111/bbb/222222/a-b-c1/333333") []
  = Some ∅.
Proof. done. Qed.

Example TestToRegexPath :
source <$> toRegexPath (str "/a/{mo-ck1}/bbb/{m-o-ck2}/a-b-c1/{mock3}")
= Some (str "/a/[a-zA-Z0-9_-]+/bbb/[a-zA-Z0-9_-]+/a-b-c1/[a-zA-Z0-9_-]+").
Proof. by vm_compute. Qed.

(** ** Path templates and their matchers *)

(** The matcher of every valid template exists, and is not anchored. *)
Lemma toRegexPath_valid path :
isValidPath path = true →
∃ R, toRegexPath path = Some R ∧ anchor_begin R = false ∧ anchor_end R = false.
Proof.
intros [->|(segs & _ & -> & Hsegs)]%PathFacts.isValidPath_shape.
- eexists. split; [vm_compute; reflexivity | done].
- destruct (PathFacts.toRegexPath_join segs Hsegs) as [text ->]. eauto.
Qed.

(** C4: a valid template with k brace-wrapped segments yields k path
    variables, in the order of the segments; each has the zero-based index
    of its segment among the segments after the leading empty piece of the
    split, and the text between the braces as its name. *)
Theorem extractPathVariableNames_valid path :
isValidPath path = true →
let segs := tail (Split path "/") in
extractPathVariableNames path = spec_path_variables segs
∧ length (extractPathVariableNames path)
  = length (filter (λ seg, is_Some (braced_name seg)) segs).
Proof.
intros Hvalid segs.
assert (extractPathVariableNames path = spec_path_variables segs) as Heq.
{ subst segs.
  apply PathFacts.isValidPath_shape in Hvalid as [->|(segs & _ & -> & Hsegs)];
    [done|].
  unfold extractPathVariableNames.
  rewrite PathFacts.Split_join by by apply PathFacts.good_segment_no_slash.
  simpl. apply (PathFacts.extract_names_loop_spec segs Hsegs 0). }
split; [done|]. rewrite Heq. apply PathFacts.braced_count.
Qed.

Lemma extractPathVariableNames_valid_witness :
isValidPath (str "/a/{mo-ck1}/bbb/{m-o-ck2}/a-b-c1/{mock3}") = true
∧ extractPathVariableNames (str "/a/{mo-ck1}/bbb/{m-o-ck2}/a-b-c1/{mock3}")
  = [mkPathVariable 1 (str "mo-ck1"); mkPathVariable 3 (str "m-o-ck2");
     mkPathVariable 5 (str "mock3")].
Proof.
split; [vm_compute; reflexivity|].
destruct (extractPathVariableNames_valid
            (str "/a/{mo-ck1}/bbb/{m-o-ck2}/a-b-c1/{mock3}")) as [-> _];
  vm_compute; reflexivity.
Defined.

(** A path accepted by the matcher of a valid template has a piece for
    every path variable. *)
Lemma accepted_path_in_bounds template R calledPath :
isValidPath template = true →
toRegexPath template = Some R →
MatchString R calledPath = true →
Forall (λ v, (0 <= pathIndex v + 1
              < Z.of_nat (length (Split calledPath "/")))%Z)
  (extractPathVariableNames template)
∧ is_Some (extractPathVariableValues calledPath
             (extractPathVariableNames template)).
Proof.
intros Hvalid HR Hmatch.
assert (Forall (λ v, (0 <= pathIndex v + 1
                      < Z.of_nat (length (Split calledPath "/")))%Z)
          (extractPathVariableNames template)) as Hbound.
{ apply PathFacts.isValidPath_shape in Hvalid as [->|(segs & _ & -> & Hsegs)];
    [done|].
  destruct (PathFacts.toRegexPath_join segs Hsegs) as [text Htext].
  rewrite Htext in HR. injection HR as <-.
  apply RegexpFacts.MatchString_spec in Hmatch
    as (pre & mid & post & -> & Hmid & _). simpl in Hmid.
  apply (PathFacts.template_lang_slashes segs mid Hsegs) in Hmid.
  rewrite PathFacts.Split_length, !PathFacts.count_slash_app, Hmid.
  unfold extractPathVariableNames.
  eapply Forall_impl; [apply PathFacts.extract_names_loop_bound; lia|].
  simpl. intros v.
  rewrite PathFacts.Split_join by by apply PathFacts.good_segment_no_slash.
  simpl. lia. }
split; [done|]. by apply PathFacts.extract_values_loop_in_range.
Qed.

(** C9: for a valid template and a path that its matcher accepts, also by a
    substring, every path variable's index plus one is a position of the
    split of the path, so the extraction of the values does not fault. *)
Theorem extractPathVariableValues_in_bounds template R calledPath :
isValidPath template = true →
toRegexPath template = Some R →
MatchString R calledPath = true →
Forall (λ v, (0 <= pathIndex v + 1
              < Z.of_nat (length (Split calledPath "/")))%Z)
  (extractPathVariableNames template)
∧ is_Some (extractPathVariableValues calledPath
             (extractPathVariableNames template)).
Proof. apply accepted_path_in_bounds. Qed.

Lemma extractPathVariableValues_in_bounds_witness :
∃ R, toRegexPath (str "/a/{id}") = Some R
     ∧ MatchString R (str "/x/a/7/y") = true
     ∧ is_Some (extractPathVariableValues (str "/x/a/7/y")
                  (extractPathVariableNames (str "/a/{id}"))).
Proof.
destruct (toRegexPath (str "/a/{id}")) as [R|] eqn:HR;
  [|vm_compute in HR; discriminate].
assert (MatchString R (str "/x/a/7/y") = true) as Hm.
{ vm_compute in HR. injection HR as <-. vm_compute. reflexivity. }
exists R. split; [reflexivity|]. split; [exact Hm|].
refine (proj2 (extractPathVariableValues_in_bounds
                 (str "/a/{id}") R (str "/x/a/7/y") _ HR Hm)).
vm_compute. reflexivity.
Defined.

(** C1 (the code differs): for the template [/a/{id}] the matcher accepts
    [/x/a/7/y], of which only the part [/a/7] matches the template, and the
    variable [id] is then read from the wrong segment. *)
Theorem toRegexPath_not_anchored :
isValidPath (str "/a/{id}") = true
∧ ∃ R, toRegexPath (str "/a/{id}") = Some R
       ∧ source R = str "/a/[a-zA-Z0-9_-]+"
       ∧ MatchString R (str "/a/7") = true
       ∧ MatchString R (str "/x/a/7/y") = true
       ∧ full_match (body R) (str "/x/a/7/y") = false
       ∧ (extractPathVariableValues (str "/x/a/7/y")
            (extractPathVariableNames (str "/a/{id}")))
         ≫= (λ m, m !! str "id") = Some (str "a").
Proof.
split; [vm_compute; reflexivity|].
eexists. split; [vm_compute; reflexivity|].
repeat split; vm_compute; reflexivity.
Qed.

(** ** The checks of registration *)
Lemma validateHandler_func httpMethod ins outs :
validateHandler httpMethod (RFunc ins outs) = None ↔
((ins = [httpType] ∧ isHttpMethodBodyable httpMethod = false)
 ∨ (∃ second, ins = [httpType; second] ∧ Ty_Kind second = KPtr
              ∧ isHttpMethodBodyable httpMethod = true))
∧ outs = [httpResponseType].
Proof.
simpl. unfold panic_if.
destruct (isHttpMethodBodyable httpMethod);
  destruct ins as [|a [|b [|c ins]]]; simpl.
all: try (split; [done|]; intros [[[? ?]|(? & ? & ? & ?)] _]; done).
all: case_bool_decide as Ha; simpl.
all: try (split; [done|]; intros [[[? ?]|(? & ? & ? & ?)] _]; congruence).
all: try (case_bool_decide as Hb; simpl).
all: try (split; [done|]; intros [[[? ?]|(? & ? & ? & ?)] _]; congruence).
all: destruct outs as [|r [|r2 outs]]; simpl.
all: try (split; [done|]; intros [_ ?]; done).
all: case_bool_decide as Hr; simpl.
all: try (split; [done|]; intros [_ ?]; congruence).
all: subst; split; try done; intros _; split; eauto.
Qed.

Lemma validateHandler_None httpMethod t :
validateHandler httpMethod t = None ↔ ¬ shape_violation httpMethod t.
Proof.
destruct t as [ins outs|t].
- rewrite validateHandler_func. unfold shape_violation. simpl. split.
  + intros [[[-> Hb]|(second & -> & Hk & Hb)] ->]; rewrite Hb; simpl;
      intros [[? ?]|[[? ?]|[?|[(s & Hs & ?)|?]]]]; try done.
    injection Hs as <-. done.
  + intros Hv.
    assert (outs = [httpResponseType]) as ->.
    { destruct (decide (outs = [httpResponseType])); [done|].
      exfalso. apply Hv. do 4 right. done. }
    assert (ins !! 0%nat = Some httpType) as H0.
    { destruct (decide (ins !! 0%nat = Some httpType)); [done|].
      exfalso. apply Hv. right. right. left. done. }
    split; [|done]. destruct (isHttpMethodBodyable httpMethod).
    * right. destruct ins as [|a [|b [|c ins]]];
        try (exfalso; apply Hv; left; done).
      injection H0 as ->. exists b. split; [done|]. split; [|done].
      destruct (decide (Ty_Kind b = KPtr)); [done|].
      exfalso. apply Hv. do 3 right. left. eauto.
    * left. destruct ins as [|a [|b ins]];
        try (exfalso; apply Hv; right; left; done).
      injection H0 as ->. done.
- split; [done|]. intros Hv. exfalso. apply Hv. unfold shape_violation.
  destruct (isHttpMethodBodyable httpMethod); [left | right; left]; done.
Qed.

Lemma validateHandler_Some httpMethod t e :
validateHandler httpMethod t = Some e → shape_violation httpMethod t.
Proof.
intros Hv. unfold shape_violation.
destruct (decide (isHttpMethodBodyable httpMethod = true ∧ NumIn t ≠ 2));
  [tauto|].
destruct (decide (isHttpMethodBodyable httpMethod = false ∧ NumIn t ≠ 1));
  [tauto|].
destruct (decide (In_ t 0 = Some httpType)); [|tauto].
destruct (decide (Outs t = [httpResponseType])); [|tauto].
destruct (In_ t 1) as [second|] eqn:E.
- destruct (decide (Ty_Kind second = KPtr)); [|eauto 10].
  exfalso. assert (validateHandler httpMethod t = None); [|congruence].
  apply validateHandler_None. unfold shape_violation.
  intros [?|[?|[?|[(s & Hs & ?)|?]]]]; try done. congruence.
- exfalso. assert (validateHandler httpMethod t = None); [|congruence].
  apply validateHandler_None. unfold shape_violation.
  intros [?|[?|[?|[(s & Hs & ?)|?]]]]; try done. congruence.
Qed.

(** ** Registration *)
Section RegistrationFacts.

Variable Value : Type.

Implicit Types (routes : gmap (list ascii) (list (CustomHandlerImpl Value))).
Implicit Types (h : CustomHandlerImpl Value) (fn : HandlerFunction Value).
Implicit Types (ofn : option (HandlerFunction Value)).

Lemma NewCustomHandlerImpl_inr httpMethod path ofn h :
NewCustomHandlerImpl httpMethod path ofn = inr h →
∃ fn R,
  ofn = Some fn ∧ isValidPath path = true
  ∧ validateHandler httpMethod (handler_type fn) = None
  ∧ toRegexPath path = Some R
  ∧ h = mkCustomHandlerImpl R (extractPathVariableNames path)
          (if (NumIn (handler_type fn) =? 2)%nat
           then In_ (handler_type fn) 1 ≫= Ty_Elem else None)
          fn.
Proof.
unfold NewCustomHandlerImpl. destruct ofn as [fn|]; [|done].
destruct (isValidPath path); [|done]. simpl.
destruct (validateHandler httpMethod (handler_type fn)) eqn:Hv; [done|].
destruct (toRegexPath path) as [R|] eqn:HR; [|done].
intros [= <-]. by exists fn, R.
Qed.

Lemma NewCustomHandlerImpl_inl httpMethod path ofn :
(∃ e, NewCustomHandlerImpl httpMethod path ofn = inl e) ↔
ofn = None ∨ isValidPath path = false
∨ ∃ fn, ofn = Some fn ∧ shape_violation httpMethod (handler_type fn).
Proof.
unfold NewCustomHandlerImpl. destruct ofn as [fn|].
2:{ split; [by left | by eexists]. }
destruct (isValidPath path) eqn:Hp; simpl.
2:{ split; [by right; left | by eexists]. }
destruct (toRegexPath_valid path Hp) as (R & -> & _).
destruct (validateHandler httpMethod (handler_type fn)) as [e|] eqn:Hv.
- split; [|by eexists]. intros _. right. right. exists fn. split; [done|].
  by apply validateHandler_Some in Hv.
- split; [by intros [? ?]|]. intros [?|[?|(fn' & [= <-] & Hs)]]; try done.
  by apply validateHandler_None in Hv.
Qed.

(** An accepted handler has a body type exactly when its method is
    bodyable. *)
Lemma registered_HasRequestBody httpMethod path ofn h :
NewCustomHandlerImpl httpMethod path ofn = inr h →
HasRequestBody h = isHttpMethodBodyable httpMethod.
Proof.
intros (fn & R & -> & _ & Hv & _ & ->)%NewCustomHandlerImpl_inr.
unfold HasRequestBody. simpl. destruct (handler_type fn) as [ins outs|t];
  [|done].
apply validateHandler_func in Hv
  as [[[-> ->]|(second & -> & Hk & ->)] _]; simpl; [done|].
by destruct second.
Qed.

Lemma entries_addRoute routes httpMethod path ofn m :
entries (fst (addRoute routes httpMethod path ofn)) m =
match NewCustomHandlerImpl httpMethod path ofn with
| inr h => if decide (m = httpMethod) then entries routes m ++ [h]
           else entries routes m
| inl _ => entries routes m
end.
Proof.
unfold addRoute.
set (routes1 := match routes !! httpMethod with
                | None => <[httpMethod:=[]]> routes
                | Some _ => routes
                end).
assert (∀ m', entries routes1 m' = entries routes m') as H1.
{ intros m'. unfold routes1, entries.
  destruct (routes !! httpMethod) eqn:E; [done|].
  destruct (decide (m' = httpMethod)) as [->|].
  - by rewrite lookup_insert_eq, E.
  - by rewrite lookup_insert_ne. }
destruct (NewCustomHandlerImpl httpMethod path ofn) as [e|h]; simpl.
- apply H1.
- rewrite H1. unfold entries at 1. destruct (decide (m = httpMethod)) as [->|].
  + by rewrite lookup_insert_eq.
  + rewrite lookup_insert_ne by done. apply H1.
Qed.

(** Every entry of a registry was accepted by registration under the
    method it is stored at. *)
Lemma built_registered routes :
built routes →
∀ m h, h ∈ entries routes m →
  ∃ path ofn, NewCustomHandlerImpl m path ofn = inr h.
Proof.
induction 1 as [|routes httpMethod path ofn _ IH]; intros m h.
- unfold entries, NewRoutes. rewrite lookup_empty. simpl. by intros ?%elem_of_nil.
- rewrite entries_addRoute.
  destruct (NewCustomHandlerImpl httpMethod path ofn) as [e|h0] eqn:E;
    [apply IH|].
  destruct (decide (m = httpMethod)) as [->|]; [|apply IH].
  intros [Hin|Hs%list_elem_of_singleton]%elem_of_app; [by apply IH|].
  subst h. eauto.
Qed.

Lemma snd_addRoute routes httpMethod path ofn :
snd (addRoute routes httpMethod path ofn) =
match NewCustomHandlerImpl httpMethod path ofn with
| inl e => Some e
| inr _ => None
end.
Proof.
unfold addRoute. by destruct (NewCustomHandlerImpl httpMethod path ofn).
Qed.

Lemma isHttpMethodBodyable_iff m :
isHttpMethodBodyable m = true ↔
m = MethodPost ∨ m = MethodPut ∨ m = MethodPatch ∨ m = MethodDelete.
Proof.
unfold isHttpMethodBodyable. repeat case_decide; split; try done; tauto.
Qed.

(** C3, amended: registration panics exactly when the handler is nil, the
    path template is invalid, or the shape of the handler breaks a rule;
    then no entry is added to any method, and otherwise the new entry is
    the last one of its method. *)
Theorem addRoute_panics_iff routes httpMethod path ofn :
(snd (addRoute routes httpMethod path ofn) ≠ None ↔
 ofn = None ∨ isValidPath path = false
 ∨ ∃ fn, ofn = Some fn ∧ shape_violation httpMethod (handler_type fn))
∧ (snd (addRoute routes httpMethod path ofn) ≠ None →
   ∀ m, entries (fst (addRoute routes httpMethod path ofn)) m = entries routes m)
∧ (snd (addRoute routes httpMethod path ofn) = None →
   ∃ h, NewCustomHandlerImpl httpMethod path ofn = inr h
        ∧ entries (fst (addRoute routes httpMethod path ofn)) httpMethod
          = entries routes httpMethod ++ [h]).
Proof.
rewrite snd_addRoute. split; [|split].
- rewrite <- NewCustomHandlerImpl_inl.
  destruct (NewCustomHandlerImpl httpMethod path ofn) as [e|h].
  + split; [eauto | done].
  + split; [done | by intros [? ?]].
- intros Hp m. rewrite entries_addRoute.
  by destruct (NewCustomHandlerImpl httpMethod path ofn).
- intros Hp. rewrite entries_addRoute.
  destruct (NewCustomHandlerImpl httpMethod path ofn) as [e|h]; [done|].
  exists h. by rewrite decide_True.
Qed.

(** C8: an entry that registration accepts has a request body exactly when
    its method is POST, PUT, PATCH or DELETE, and so has every entry of
    every registry that registration builds. *)
Theorem HasRequestBody_iff_bodyable :
(∀ httpMethod path ofn h,
   NewCustomHandlerImpl httpMethod path ofn = inr h →
   (HasRequestBody h = true ↔
    httpMethod = MethodPost ∨ httpMethod = MethodPut
    ∨ httpMethod = MethodPatch ∨ httpMethod = MethodDelete))
∧ (∀ routes, built routes →
   ∀ httpMethod h, h ∈ entries routes httpMethod →
   (HasRequestBody h = true ↔
    httpMethod = MethodPost ∨ httpMethod = MethodPut
    ∨ httpMethod = MethodPatch ∨ httpMethod = MethodDelete)).
Proof.
split.
- intros m path ofn h Hh.
  by rewrite (registered_HasRequestBody _ _ _ _ Hh), isHttpMethodBodyable_iff.
- intros routes Hb m h Hin.
  destruct (built_registered routes Hb m h Hin) as (path & ofn & Hh).
  by rewrite (registered_HasRequestBody _ _ _ _ Hh), isHttpMethodBodyable_iff.
Qed.

End RegistrationFacts.

(** C3 as stated fails: a handler of the right shape for GET is refused
    under a path template that is not valid. *)
Lemma registration_claim_invalid_path :
¬ registration_claim (NewRoutes (list ascii)) MethodGet (str "users/{id}")
    Demo.getHandler.
Proof.
unfold registration_claim. intros [Hpanic _].
assert (shape_violation MethodGet (handler_type Demo.getHandler)) as Hs.
{ apply Hpanic. vm_compute. discriminate. }
revert Hs. by apply validateHandler_None.
Qed.

Lemma addRoute_panics_iff_witness :
snd (addRoute (NewRoutes (list ascii)) MethodPost Demo.PATH (Some Demo.getHandler))
  ≠ None
∧ entries (fst (addRoute (NewRoutes (list ascii)) MethodPost Demo.PATH
                  (Some Demo.getHandler))) MethodPost = []
∧ ∃ h, entries (fst (addRoute (NewRoutes (list ascii)) MethodGet Demo.PATH
                       (Some Demo.getHandler))) MethodGet = [] ++ [h].
Proof.
pose proof (addRoute_panics_iff (list ascii) (NewRoutes (list ascii))
              MethodPost Demo.PATH (Some Demo.getHandler)) as (_ & Hkeep & _).
pose proof (addRoute_panics_iff (list ascii) (NewRoutes (list ascii))
              MethodGet Demo.PATH (Some Demo.getHandler)) as (_ & _ & Hadd).
split; [vm_compute; discriminate|]. split.
- apply Hkeep. vm_compute. discriminate.
- destruct Hadd as (h & _ & Hh); [vm_compute; reflexivity|]. by exists h.
Defined.

Lemma demo_routes_built : built Demo.demo_routes.
Proof.
unfold Demo.demo_routes, POST, GET. apply built_add, built_add, built_new.
Qed.

Lemma HasRequestBody_iff_bodyable_witness :
built Demo.demo_routes
∧ Forall (λ h, HasRequestBody h = true) (entries Demo.demo_routes MethodPost)
∧ length (entries Demo.demo_routes MethodPost) = 1.
Proof.
pose proof demo_routes_built as Hb.
split; [exact Hb|]. split; [|vm_compute; reflexivity].
apply Forall_forall. intros h Hh.
apply (proj2 (HasRequestBody_iff_bodyable (list ascii)) _ Hb MethodPost h Hh).
by left.
Defined.

(** ** The dispatcher *)
Section DispatcherFacts.

Variable Value : Type.
Variable json_Unmarshal xml_Unmarshal : list ascii -> Ty -> option Value.

Implicit Types (h : CustomHandlerImpl Value) (d : Dispatcher Value).
Implicit Types (handlers : list (CustomHandlerImpl Value)).

Lemma first_match_Some handlers calledPath h :
first_match handlers calledPath = Some h ↔
∃ before after,
  handlers = before ++ h :: after
  ∧ Forall (λ h', MatchString (GetRegexPath h') calledPath = false) before
  ∧ MatchString (GetRegexPath h) calledPath = true.
Proof.
induction handlers as [|h0 handlers IH]; simpl.
- split; [done|]. intros (before & after & Hl & _). by destruct before.
- destruct (MatchString (GetRegexPath h0) calledPath) eqn:E; split.
  + intros [= <-]. by exists [], handlers.
  + intros (before & after & Hl & Hb & Hm). destruct before as [|b before].
    * by injection Hl as ->.
    * injection Hl as <- _. apply Forall_cons in Hb as [Hb _]. congruence.
  + intros (before & after & -> & Hb & Hm)%IH.
    exists (h0 :: before), after. split; [done|]. split; [by constructor | done].
  + intros (before & after & Hl & Hb & Hm). apply IH.
    destruct before as [|b before].
    * injection Hl as -> _. congruence.
    * injection Hl as <- ->. apply Forall_cons in Hb as [_ Hb]. eauto.
Qed.

Lemma first_match_None handlers calledPath :
first_match handlers calledPath = None ↔
Forall (λ h, MatchString (GetRegexPath h) calledPath = false) handlers.
Proof.
induction handlers as [|h0 handlers IH]; simpl; [done|].
destruct (MatchString (GetRegexPath h0) calledPath) eqn:E.
- split; [done|]. intros [? _]%Forall_cons. congruence.
- rewrite IH. split; [by constructor | by intros [_ ?]%Forall_cons].
Qed.

Lemma executeFilters_app request fs1 fs2 st :
executeFilters request (fs1 ++ fs2) st =
(if fst (executeFilters request fs1 st)
 then executeFilters request fs2 (snd (executeFilters request fs1 st))
 else executeFilters request fs1 st).
Proof.
revert st. induction fs1 as [|f fs1 IH]; intros st; simpl; [done|].
destruct (filter_run f request (world st)) as [[] w]; simpl; [apply IH | done].
Qed.

(** Filters that all pass are all called, in order. *)
Lemma executeFilters_pass request fs st st' :
executeFilters request fs st = (true, st') →
events st' = events st ++ map (λ f, EvFilter (filter_name f)) fs.
Proof.
revert st. induction fs as [|f fs IH]; intros st; simpl.
- intros [= <-]. by rewrite app_nil_r.
- destruct (filter_run f request (world st)) as [[] w]; simpl; [|done].
  intros ->%IH. simpl. by rewrite <- app_assoc.
Qed.

(** C2: the lookup returns the first entry of the method's list whose
    matcher accepts the path, and registration puts each new entry at the
    end of that list; when no entry of the method accepts the path, or the
    method has no list, the dispatcher writes status 404 and calls neither a
    filter nor a handler. *)
Theorem ServeHTTP_not_found d request st :
let m := Method request in
let p := URL_Path request in
(∀ h, getHandler d m p = Some h ↔
      ∃ before after,
        entries (routes d) m = before ++ h :: after
        ∧ Forall (λ h', MatchString (GetRegexPath h') p = false) before
        ∧ MatchString (GetRegexPath h) p = true)
∧ (Forall (λ h, MatchString (GetRegexPath h) p = false) (entries (routes d) m) →
   ServeHTTP json_Unmarshal xml_Unmarshal d request st =
   Returned (mkState (mkWorld (sink (world st) ++ [WriteHeader 404])
                        (body_stream (world st)))
               (events st ++ [EvNotFound])))
∧ (routes d !! m = None →
   ServeHTTP json_Unmarshal xml_Unmarshal d request st =
   Returned (mkState (mkWorld (sink (world st) ++ [WriteHeader 404])
                        (body_stream (world st)))
               (events st ++ [EvNotFound])))
∧ (∀ routes0 httpMethod path ofn h,
     NewCustomHandlerImpl httpMethod path ofn = inr h →
     entries (fst (addRoute routes0 httpMethod path ofn)) httpMethod
     = entries routes0 httpMethod ++ [h]).
Proof.
intros m p.
assert (Forall (λ h, MatchString (GetRegexPath h) p = false) (entries (routes d) m) →
        ServeHTTP json_Unmarshal xml_Unmarshal d request st =
        Returned (mkState (mkWorld (sink (world st) ++ [WriteHeader 404])
                             (body_stream (world st)))
                    (events st ++ [EvNotFound]))) as Hmiss.
{ intros Hnone%first_match_None. unfold ServeHTTP, getHandler.
  fold m p. by rewrite Hnone. }
split; [|split; [|split]].
- intros h. apply first_match_Some.
- exact Hmiss.
- intros Hm. apply Hmiss. unfold entries. by rewrite Hm.
- intros routes0 httpMethod path ofn h Hh.
  by rewrite entries_addRoute, Hh, decide_True.
Qed.

(** C5: when a pre-filter returns false, the request ends with the world as
    that filter left it; the events are the calls of the pre-filters up to
    that one, and nothing else: no later pre-filter, no binding, no handler,
    no write of an envelope, no post-filter. *)
Theorem ServeHTTP_pre_filter_stops d request st h passed f later st1 w :
getHandler d (Method request) (URL_Path request) = Some h →
preFilters d = passed ++ f :: later →
executeFilters request passed st = (true, st1) →
filter_run f request (world st1) = (false, w) →
ServeHTTP json_Unmarshal xml_Unmarshal d request st =
  Returned (mkState w (events st1 ++ [EvFilter (filter_name f)]))
∧ events st1 ++ [EvFilter (filter_name f)] =
  events st ++ map (λ g, EvFilter (filter_name g)) (passed ++ [f]).
Proof.
intros Hh Hpre Hpassed Hf. split.
- unfold ServeHTTP. rewrite Hh, Hpre, executeFilters_app, Hpassed. simpl.
  by rewrite Hf.
- rewrite (executeFilters_pass _ _ _ _ Hpassed), map_app. simpl.
  by rewrite <- app_assoc.
Qed.

(** The handler that the lookup returns in a registry built by registration
    gets its path variables without a fault. *)
Lemma getHandler_extract_ok d httpMethod calledPath h :
built (routes d) →
getHandler d httpMethod calledPath = Some h →
is_Some (extractPathVariableValues calledPath (GetPathVariableNames h)).
Proof.
intros Hb (before & after & Hl & _ & Hm)%first_match_Some.
destruct (built_registered Value (routes d) Hb httpMethod h)
  as (path & ofn & Hh).
{ rewrite Hl. apply elem_of_app. right. apply list_elem_of_here. }
apply NewCustomHandlerImpl_inr in Hh as (fn & R & _ & Hv & _ & HR & ->).
simpl in *. by apply (accepted_path_in_bounds path R calledPath).
Qed.

(** C6: when the matched handler takes a body and the body cannot be read
    or deserialized, the request ends with the sink as the pre-filters left
    it; after them the dispatcher only extracted the path variables and
    tried to bind the body: no handler, no write of an envelope, no
    post-filter. *)
Theorem ServeHTTP_bind_error d request st h bodyType st1 :
built (routes d) →
getHandler d (Method request) (URL_Path request) = Some h →
HasRequestBody h = true →
GetRequestBodyType h = Some bodyType →
executeFilters request (preFilters d) st = (true, st1) →
failing (body_stream (world st1)) = true
∨ unmarshal json_Unmarshal xml_Unmarshal (Header_ContentType request)
    (pending (body_stream (world st1))) bodyType = None →
∃ st',
  ServeHTTP json_Unmarshal xml_Unmarshal d request st = Returned st'
  ∧ sink (world st') = sink (world st1)
  ∧ events st' =
    events st1 ++ EvExtractPathVariables :: EvReadBody ::
      (if failing (body_stream (world st1)) then [] else [EvUnmarshal]).
Proof.
intros Hb Hh Hbody Htype Hpre Hfail.
destruct (getHandler_extract_ok d _ _ h Hb Hh) as [pathVariableValues Hpv].
unfold ServeHTTP. rewrite Hh, Hpre. simpl. rewrite Hpv, Hbody, Htype. simpl.
unfold toRequestBodyObject, ReadAll. simpl.
destruct (failing (body_stream (world st1))) eqn:Hf; simpl.
- eexists. split; [done|]. simpl. split; [done|]. by rewrite <- app_assoc.
- destruct Hfail as [?|Hu]; [done|]. rewrite Hu.
  eexists. split; [done|]. simpl. split; [done|]. by rewrite <- !app_assoc.
Qed.

End DispatcherFacts.

Lemma ServeHTTP_not_found_witness :
Demo.serve Demo.open_dispatcher (mkRequest MethodGet (str "/nope") [])
  (Demo.start [] false)
= Returned (mkState (mkWorld [WriteHeader 404] (mkReader [] false)) [EvNotFound]).
Proof.
apply (proj1 (proj2 (ServeHTTP_not_found (list ascii)
                       Demo.unmarshal_nonempty Demo.unmarshal_nonempty
                       Demo.open_dispatcher
                       (mkRequest MethodGet (str "/nope") [])
                       (Demo.start [] false)))).
apply first_match_None. vm_compute. reflexivity.
Defined.

Lemma ServeHTTP_pre_filter_stops_witness :
Demo.serve Demo.guarded_dispatcher (mkRequest MethodPost (str "/path/7") [])
  (Demo.start (str "{}") false)
= Returned (mkState (mkWorld [WriteHeader 403] (mkReader (str "{}") false))
              [EvFilter 10; EvFilter 11]).
Proof.
destruct (getHandler Demo.guarded_dispatcher MethodPost (str "/path/7"))
  as [h|] eqn:Hh; [|vm_compute in Hh; discriminate].
apply (proj1 (ServeHTTP_pre_filter_stops (list ascii)
                Demo.unmarshal_nonempty Demo.unmarshal_nonempty
                Demo.guarded_dispatcher
                (mkRequest MethodPost (str "/path/7") [])
                (Demo.start (str "{}") false) h
                [Demo.pass_filter 10] (Demo.reject_filter 11)
                [Demo.pass_filter 12]
                (mkState (mkWorld [] (mkReader (str "{}") false)) [EvFilter 10])
                (mkWorld [WriteHeader 403] (mkReader (str "{}") false))
                Hh eq_refl eq_refl eq_refl)).
Defined.

Lemma ServeHTTP_bind_error_witness :
∃ st',
  Demo.serve Demo.open_dispatcher (mkRequest MethodPost (str "/path/7") [])
    (Demo.start (str "{}") true) = Returned st'
  ∧ sink (world st') = []
  ∧ events st' = [EvFilter 10; EvExtractPathVariables; EvReadBody].
Proof.
destruct (getHandler Demo.open_dispatcher MethodPost (str "/path/7"))
  as [h|] eqn:Hh; [|vm_compute in Hh; discriminate].
assert (HasRequestBody h = true
        ∧ GetRequestBodyType h = Some (TNamed (str "DemoBody") KStruct))
  as [Hbody Htype].
{ vm_compute in Hh. injection Hh as <-. split; vm_compute; reflexivity. }
apply (ServeHTTP_bind_error (list ascii)
         Demo.unmarshal_nonempty Demo.unmarshal_nonempty
         Demo.open_dispatcher (mkRequest MethodPost (str "/path/7") [])
         (Demo.start (str "{}") true) h (TNamed (str "DemoBody") KStruct)
         (mkState (mkWorld [] (mkReader (str "{}") true)) [EvFilter 10])).
- exact demo_routes_built.
- exact Hh.
- exact Hbody.
- exact Htype.
- reflexivity.
- left. reflexivity.
Defined.

(** ** Writing the envelopes *)
Section WriterFacts.

Variable Value : Type.

Lemma digits_loop_head fuel n acc :
(0 <= n)%Z →
∃ d rest, (0 <= d < 10)%Z ∧ digits_loop (S fuel) n acc = digit_char d :: rest.
Proof.
revert n acc. induction fuel as [|fuel IH]; intros n acc Hn.
- exists (n mod 10)%Z, acc. split; [apply Z.mod_pos_bound; lia|].
  simpl. by destruct (n <? 10)%Z.
- change (digits_loop (S (S fuel)) n acc)
    with (if (n <? 10)%Z then digit_char (n mod 10) :: acc
          else digits_loop (S fuel) (n / 10) (digit_char (n mod 10) :: acc)).
  destruct (n <? 10)%Z.
  + exists (n mod 10)%Z, acc. split; [apply Z.mod_pos_bound; lia | done].
  + apply IH. apply Z.div_pos; lia.
Qed.

Lemma digit_char_ascii d : (0 <= d < 10)%Z → high_bit (digit_char d) = false.
Proof.
intros Hd.
assert (d = 0 ∨ d = 1 ∨ d = 2 ∨ d = 3 ∨ d = 4 ∨ d = 5 ∨ d = 6 ∨ d = 7
        ∨ d = 8 ∨ d = 9)%Z as Hcases by lia.
decompose [or] Hcases; subst d; reflexivity.
Qed.

(** The decimal representation of a positive number starts with a digit. *)
Lemma Itoa_head n :
(0 < n)%Z → ∃ c rest, Itoa n = c :: rest ∧ high_bit c = false.
Proof.
intros Hn. unfold Itoa. destruct (Z.ltb_spec n 0); [lia|].
destruct (digits_loop_head (Z.to_nat (Z.log2 n)) n []) as (d & rest & Hd & ->);
  [lia|].
exists (digit_char d), rest. split; [done | by apply digit_char_ascii].
Qed.

Lemma lead_byte_high k x :
Z.testbit k 7 = true → high_bit (byte_of_Z (Z.lor k x)) = true.
Proof.
intros Hk. cbv beta iota delta [high_bit byte_of_Z].
by rewrite Z.lor_spec, Hk.
Qed.

(** The conversion of a number that is no ASCII code starts with a byte
    that is no ASCII character. *)
Lemma string_of_int_head n :
(128 <= n)%Z ∨ valid_rune n = false →
∃ c rest, string_of_int n = c :: rest ∧ high_bit c = true.
Proof.
intros Hn. unfold string_of_int. destruct (valid_rune n) eqn:Hv.
- destruct Hn as [Hn|?]; [|done]. unfold utf8_encode.
  destruct (Z.ltb_spec n 128); [lia|].
  destruct (n <? 2048)%Z; [|destruct (n <? 65536)%Z];
    eexists _, _; (split; [reflexivity|]); by apply lead_byte_high.
- by eexists _, _.
Qed.

Lemma string_of_int_small :
forallb (λ k, negb (bool_decide (string_of_int (Z.of_nat k) = Itoa (Z.of_nat k))))
  (seq 1 127) = true.
Proof. vm_compute. reflexivity. Qed.

(** [string(i)] is never the decimal representation of a positive [i]. *)
Lemma string_of_int_not_Itoa n : (0 < n)%Z → string_of_int n ≠ Itoa n.
Proof.
intros Hn. destruct (Z.ltb_spec n 128) as [Hs|Hl].
- pose proof string_of_int_small as H.
  rewrite forallb_forall in H. specialize (H (Z.to_nat n)).
  rewrite Z2Nat.id in H by lia.
  apply negb_true_iff, bool_decide_eq_false in H; [done|].
  apply in_seq. lia.
- destruct (string_of_int_head n) as (c & rest & -> & Hc); [by left|].
  destruct (Itoa_head n Hn) as (c' & rest' & -> & Hc'). intros [= -> _].
  congruence.
Qed.

Lemma set_custom_headers_are_headers hs :
forallb is_header_set (set_custom_headers hs) = true.
Proof. by induction hs. Qed.

(** C7, amended: a JSON or XML envelope and a text envelope call the sink in
    the order status code, content type, custom headers, body, where the
    body of a JSON or XML envelope is written only if it can be marshaled.
    A file envelope sets the content length, if positive, and the content
    disposition, then the status code, then the content type, and then
    copies the stream.  An envelope without content only sets status 204. *)
Theorem write_order (response : list SinkOp) :
(∀ r : ResponseWriter Value,
   write (IsResponseWriter r) response =
   response ++ [WriteHeader (rw_statusCode r);
                HeaderSet (str "Content-Type") (rw_contentType r)]
     ++ set_custom_headers (rw_customHeaders r)
     ++ match rw_marshal r (rw_responseBody r) with
        | Some marshallizedResponse => [Write marshallizedResponse]
        | None => []
        end
   ∧ claimed_write_order (ResponseWriter_write r))
∧ (∀ r : TextResponseWriter,
   write (IsTextResponseWriter Value r) response =
   response ++ [WriteHeader (tw_statusCode r);
                HeaderSet (str "Content-Type") (str "text/plain")]
     ++ set_custom_headers (tw_customHeaders r)
     ++ [Write (tw_responseBody r)]
   ∧ claimed_write_order (TextResponseWriter_write r))
∧ (∀ r : FileResponseWriter,
   write (IsFileResponseWriter Value r) response =
   response
     ++ (if (0 <? fw_contentLength r)%Z
         then [HeaderSet (str "Content-Length")
                 (string_of_int (fw_contentLength r))]
         else [])
     ++ [HeaderSet (str "Content-Disposition") (fw_contentDisposition r);
         WriteHeader (fw_statusCode r);
         HeaderSet (str "Content-Type") (fw_contentType r);
         Write (pending (fw_file r))]
   ∧ ¬ claimed_write_order (FileResponseWriter_write r))
∧ write (IsNoContentResponseWriter Value) response = response ++ [WriteHeader 204]
∧ ¬ claimed_write_order NoContentResponseWriter_write.
Proof.
split; [|split; [|split; [|split]]].
- intros r. split; [done|].
  exists (rw_statusCode r), (rw_contentType r),
    (set_custom_headers (rw_customHeaders r)),
    (match rw_marshal r (rw_responseBody r) with
     | Some b => [Write b]
     | None => []
     end).
  split; [done|]. split; [apply set_custom_headers_are_headers|].
  by destruct (rw_marshal r (rw_responseBody r)).
- intros r. split; [done|].
  exists (tw_statusCode r), (str "text/plain"),
    (set_custom_headers (tw_customHeaders r)), [Write (tw_responseBody r)].
  split; [done|]. split; [apply set_custom_headers_are_headers | done].
- intros r. split; [done|].
  intros (sc & ct & hs & b & Hops & _). unfold FileResponseWriter_write in Hops.
  by destruct (0 <? fw_contentLength r)%Z.
- done.
- intros (sc & ct & hs & b & Hops & _). done.
Qed.

(** C10, amended: a file envelope with a positive content length sets the
    Content-Length header, before anything else, to the Go conversion of the
    number to a string: the UTF-8 encoding of the code point of that number
    when the number is a code point that UTF-8 encodes, that is at most
    1114111 and outside 55296..57343 (65 gives [A]), and the three bytes EF
    BF BD of U+FFFD for every other positive number; never the decimal
    representation.  With a content length of zero or less the header is
    not set. *)
Theorem FileResponse_content_length
    (statusCode : Z) (contentType contentDisposition : list ascii)
    (contentLength : Z) (file : Reader) (response : list SinkOp) :
let ops :=
  write (FileResponse Value statusCode contentType contentDisposition
           contentLength file) response in
((0 < contentLength)%Z →
 ∃ rest,
   ops = response
         ++ HeaderSet (str "Content-Length") (string_of_int contentLength)
         :: rest
   ∧ existsb is_content_length rest = false
   ∧ string_of_int contentLength ≠ Itoa contentLength
   ∧ ((contentLength < 55296 ∨ 57343 < contentLength <= 1114111)%Z →
      string_of_int contentLength = utf8_encode contentLength)
   ∧ ((55296 <= contentLength <= 57343 ∨ 1114111 < contentLength)%Z →
      string_of_int contentLength = RuneError_bytes))
∧ ((contentLength <= 0)%Z →
   ∃ rest, ops = response ++ rest ∧ existsb is_content_length rest = false)
∧ string_of_int 65 = str "A"
∧ Itoa 65 = str "65"
∧ utf8_encode RuneError = RuneError_bytes.
Proof.
intros ops. subst ops. unfold write, FileResponse, FileResponseWriter_write.
simpl fw_contentLength. split; [|split; [|done]].
- intros Hpos. destruct (Z.ltb_spec 0 contentLength) as [_|?]; [|lia].
  eexists. split; [reflexivity|]. split; [done|].
  split; [by apply string_of_int_not_Itoa|].
  unfold string_of_int, valid_rune. split; intros Hrange.
  + destruct (Z.leb_spec 0 contentLength); [|lia].
    destruct (Z.ltb_spec contentLength 55296); [done|].
    destruct (Z.ltb_spec 57343 contentLength); [|lia].
    destruct (Z.leb_spec contentLength 1114111); [done | lia].
  + destruct (Z.leb_spec 0 contentLength); [|lia].
    destruct (Z.ltb_spec contentLength 55296); [lia|].
    destruct (Z.ltb_spec 57343 contentLength); [|done].
    destruct (Z.leb_spec contentLength 1114111); [lia | done].
- intros Hle. destruct (Z.ltb_spec 0 contentLength) as [?|_]; [lia|].
  eexists. split; [reflexivity | done].
Qed.

End WriterFacts.

(** C7 as stated fails for a file envelope: its first call sets a header,
    not the status code. *)
Lemma write_order_file_counterexample :
¬ claimed_write_order
    (write (FileResponse (list ascii) 200 (str "application/pdf")
              (str "attachment") 0 (mkReader (str "%PDF") false)) []).
Proof.
intros (sc & ct & hs & b & Hops & _). vm_compute in Hops. discriminate.
Qed.

(** Nor does an envelope without content follow it: no content type is
    set. *)
Lemma write_order_no_content :
¬ claimed_write_order (write (NoContentResponse (list ascii)) []).
Proof.
intros (sc & ct & hs & b & Hops & _). vm_compute in Hops. discriminate.
Qed.

Lemma write_order_witness :
claimed_write_order
  (write (JsonResponse Demo.marshal 200 (str "{}")
            [(str "X-Request", str "1")]) []).
Proof.
apply (proj2 (proj1 (write_order (list ascii) [])
                (mkResponseWriter [(str "X-Request", str "1")]
                   (str "application/json") 200 (str "{}") Demo.marshal))).
Defined.

Lemma FileResponse_content_length_witness :
(∃ rest,
   write (FileResponse (list ascii) 200 (str "text/plain") (str "inline") 65
            (mkReader (str "data") false)) []
   = HeaderSet (str "Content-Length") (str "A") :: rest
   ∧ str "A" ≠ Itoa 65)
∧ (∃ rest,
     write (FileResponse (list ascii) 200 (str "video/mp4") (str "inline")
              2000000 (mkReader (str "data") false)) []
     = HeaderSet (str "Content-Length") RuneError_bytes :: rest).
Proof.
split.
- destruct (FileResponse_content_length (list ascii) 200 (str "text/plain")
              (str "inline") 65 (mkReader (str "data") false) [])
    as [Hpos _].
  destruct Hpos as (rest & Hops & _ & Hne & _); [lia|].
  exists rest. split; [exact Hops | exact Hne].
- destruct (FileResponse_content_length (list ascii) 200 (str "video/mp4")
              (str "inline") 2000000 (mkReader (str "data") false) [])
    as [Hpos _].
  destruct Hpos as (rest & Hops & _ & _ & _ & Hbad); [lia|].
  exists rest. rewrite <- Hbad by lia. exact Hops.
Defined.

(** C10 as stated fails for a file of 2000000 bytes: no code point has that
    number, and the header holds the encoding of U+FFFD. *)
Lemma content_length_claim_large_file :
¬ content_length_claim
    (mkFileResponseWriter (str "video/mp4") 200 2000000
       (mkReader (str "data") false) (str "inline")).
Proof.
intros Hclaim. destruct Hclaim as (rest & Hops); [simpl; lia|].
vm_compute in Hops. injection Hops as Hbytes _. discriminate.
Qed.

(** * Further properties *)

(** ** Valid path templates in elementary terms *)
Module TemplateFacts.
Import RegexpFacts PathFacts.

Lemma lang_lower_or_digit s :
lang lower_or_digit s ↔ ∃ c, s = [c] ∧ is_lower_or_digit c = true.
Proof.
split.
- apply lang_class_inv.
- intros (c & -> & Hc). by constructor.
Qed.

(** [[a-z0-9]+] *)
Lemma lang_run s :
lang (Plus lower_or_digit) s ↔
s ≠ [] ∧ Forall (λ c, is_lower_or_digit c = true) s.
Proof.
split.
- intros H. split.
  + intros ->. by apply nullable_spec in H.
  + apply lang_alphabet in H. eapply Forall_impl; [done|].
    intros c Hc. cbv beta in Hc. unfold is_lower_or_digit.
    change (alphabet (Plus lower_or_digit) c)
      with (in_class [("a", "z"); ("0", "9")] c
            || in_class [("a", "z"); ("0", "9")] c) in Hc.
    by destruct (in_class [("a", "z"); ("0", "9")] c).
- intros [Hne Hall]. destruct s as [|c s]; [done|]. clear Hne.
  apply Forall_cons in Hall as [Hc Hall].
  apply (lang_cat lower_or_digit (Star lower_or_digit) [c] s);
    [by constructor|].
  induction Hall as [|d s Hd _ IH]; [constructor|].
  apply (lang_star_app lower_or_digit [d] s); [by constructor | done].
Qed.

Lemma lang_block s :
lang block s ↔
∃ w, w ≠ [] ∧ Forall (λ c, is_lower_or_digit c = true) w
     ∧ (s = w ∨ s = "-" :: w).
Proof.
unfold block, Opt. split.
- intros (s1 & w & -> & [->%lang_lit| ->%lang_eps_inv]%lang_alt_inv
          & [Hne Hall]%lang_run)%lang_cat_inv; exists w; auto.
- intros (w & Hne & Hall & [->| ->]).
  + apply (lang_cat _ _ [] w); [apply lang_alt_r; constructor|].
    by apply lang_run.
  + apply (lang_cat _ _ ["-"] w); [by apply lang_alt_l, lang_lit|].
    by apply lang_run.
Qed.

Lemma literal_tail_run b w rest :
w ≠ [] → Forall (λ c, is_lower_or_digit c = true) w →
literal_tail b (w ++ rest) = literal_tail false rest.
Proof.
intros Hne Hall. destruct w as [|c w]; [done|].
apply Forall_cons in Hall as [Hc Hall]. simpl. rewrite Hc. clear Hne Hc.
induction Hall as [|d w Hd _ IH]; [done|]. simpl. by rewrite Hd.
Qed.

Lemma star_block_tail v : lang (Star block) v → literal_tail false v = true.
Proof.
intros H. remember (Star block) as r eqn:Hr. revert Hr.
induction H as [| | | | | |a s t Hs _ Ht IH]; try done.
intros [= ->]. apply lang_block in Hs as (w & Hne & Hall & [->| ->]).
- rewrite literal_tail_run by done. by apply IH.
- rewrite <- app_comm_cons.
  change (literal_tail false ("-" :: w ++ t)) with (literal_tail true (w ++ t)).
  rewrite literal_tail_run by done. by apply IH.
Qed.

Lemma tail_star_block s :
(literal_tail false s = true → lang (Star block) s)
∧ (literal_tail true s = true →
   ∃ d t, s = d :: t ∧ is_lower_or_digit d = true ∧ lang (Star block) t).
Proof.
induction s as [|c t [IH1 IH2]]; [split; [constructor | done]|].
simpl. destruct (is_lower_or_digit c) eqn:Hc.
- assert (lang block [c]) as Hb.
  { apply lang_block. exists [c]. split; [done|]. split; [|by left].
    by repeat constructor. }
  split.
  + intros Ht%IH1. by apply (lang_star_app block [c] t).
  + intros Ht%IH1. eauto.
- destruct (Ascii.eqb_spec c "-") as [->|]; [|done]. simpl. split; [|done].
  intros (d & t' & -> & Hd & Ht)%IH2.
  apply (lang_star_app block ["-"; d] t'); [|done].
  apply lang_block. exists [d]. split; [done|]. split; [|by right].
  by repeat constructor.
Qed.

(** The pattern of literal segments describes the elementary notion. *)
Lemma lang_subPathPattern s : lang subPathPattern s ↔ is_literal s = true.
Proof.
unfold subPathPattern. fold block. split.
- intros (u & v & -> & [Hne Hall]%lang_run & Hv%star_block_tail)%lang_cat_inv.
  destruct u as [|c u]; [done|]. apply Forall_cons in Hall as [Hc Hall].
  simpl. rewrite Hc. simpl. destruct u as [|d u]; [done|].
  by rewrite literal_tail_run.
- destruct s as [|c s]; [done|]. simpl.
  intros [Hc Hs%tail_star_block]%andb_prop.
  apply (lang_cat _ _ [c] s); [|done]. apply lang_run.
  split; [done | by repeat constructor].
Qed.

Lemma good_segment_iff seg : good_segment seg ↔ is_template_segment seg = true.
Proof.
unfold good_segment, is_template_segment. rewrite orb_true_iff. split.
- intros [H|(name & -> & H)]; [left; by apply lang_subPathPattern|].
  right. rewrite rev_app_distr. simpl. rewrite rev_involutive.
  by apply lang_subPathPattern.
- intros [H|H]; [left; by apply lang_subPathPattern|]. right.
  destruct seg as [|c inner]; [done|].
  destruct (Ascii.eqb_spec c "{") as [->|Hc].
  2:{ destruct c as [[] [] [] [] [] [] [] []]; done. }
  destruct (rev inner) as [|e eman] eqn:Hr; [done|].
  destruct (Ascii.eqb_spec e "}") as [->|He].
  2:{ destruct e as [[] [] [] [] [] [] [] []]; done. }
  exists (rev eman). split; [|by apply lang_subPathPattern].
  f_equal. rewrite <- (rev_involutive inner), Hr. done.
Qed.

Lemma segmentPattern_intro seg :
good_segment seg → lang segmentPattern ("/" :: seg).
Proof.
intros Hseg. unfold segmentPattern.
apply (lang_cat _ _ ["/"] seg); [by apply lang_lit|].
destruct Hseg as [H|(name & -> & H)]; [by apply lang_alt_r|].
apply lang_alt_l. apply (lang_cat _ _ ["{"] (name ++ ["}"])); [by apply lang_lit|].
apply lang_cat; [done | by apply lang_lit].
Qed.

Lemma star_segments_intro segs :
Forall good_segment segs → lang (Star segmentPattern) (join_segments segs).
Proof.
induction 1 as [|seg segs Hseg _ IH]; [constructor|].
unfold join_segments. cbn [map concat].
apply lang_star_app; [by apply segmentPattern_intro | done].
Qed.

(** [strings.Split] loses nothing: the pieces, joined by the separator, are
    the string. *)
Lemma Split_pieces s p ps :
Split s "/" = p :: ps → s = p ++ join_segments ps.
Proof.
revert p ps. induction s as [|c s IH]; intros p ps; simpl.
- by intros [= <- <-].
- destruct (Ascii.eqb_spec c "/") as [->|Hc].
  + intros [= <- <-]. pose proof (Split_not_nil s "/").
    destruct (Split s "/") as [|q qs] eqn:E; [done|].
    unfold join_segments. cbn [map concat app]. f_equal.
    by apply IH.
  + pose proof (Split_not_nil s "/").
    destruct (Split s "/") as [|q qs] eqn:E; [done|].
    intros [= <- <-]. simpl. f_equal. by apply IH.
Qed.

End TemplateFacts.

(** X1: [isValidPath] accepts exactly the root path and the paths made of a
    slash and one or more segments separated by slashes, where each segment
    is a literal (lower-case letters, digits and hyphens, no hyphen at
    either end, no two hyphens in a row) or such a literal in braces. *)
Theorem isValidPath_elementary path : isValidPath path = is_template_path path.
Proof.
apply eq_true_iff_eq. unfold is_template_path. rewrite orb_true_iff. split.
- intros [->|(segs & Hne & -> & Hsegs)]%PathFacts.isValidPath_shape;
    [by left|]. right.
  rewrite PathFacts.Split_join by by apply PathFacts.good_segment_no_slash.
  destruct segs as [|seg segs]; [done|].
  apply forallb_forall. intros x Hx%list_elem_of_In.
  apply TemplateFacts.good_segment_iff.
  by apply (proj1 (Forall_forall _ _) Hsegs).
- unfold isValidPath. case_decide as Hroot; [done|].
  intros [Hr|H]; [by apply bool_decide_eq_true in Hr|].
  destruct (Split path "/") as [|[|? ?] [|seg segs]] eqn:E; try done.
  apply TemplateFacts.Split_pieces in E. simpl in E. subst path.
  assert (Forall good_segment (seg :: segs)) as Hsegs.
  { apply Forall_forall. intros x Hx%list_elem_of_In.
    apply TemplateFacts.good_segment_iff.
    by apply (proj1 (forallb_forall _ _) H). }
  apply RegexpFacts.MatchString_spec.
  exists [], (join_segments (seg :: segs)), []. rewrite app_nil_r.
  split; [done|]. split; [|done]. simpl.
  apply Forall_cons in Hsegs as [Hseg Hsegs].
  unfold join_segments. cbn [map concat].
  apply lang_cat; [by apply TemplateFacts.segmentPattern_intro|].
  by apply TemplateFacts.star_segments_intro.
Qed.

(** ** What the matcher of a valid template accepts *)
Module MatcherFacts.
Import RegexpFacts PathFacts.

Lemma lang_plus_class rs s :
lang (Plus (Class rs)) s ↔ s ≠ [] ∧ Forall (λ c, in_class rs c = true) s.
Proof.
split.
- intros H. split.
  + intros ->. by apply nullable_spec in H.
  + apply (item_lang_chars (rs, true)) in H. done.
- intros [Hne Hall]. destruct s as [|c s]; [done|]. clear Hne.
  apply Forall_cons in Hall as [Hc Hall].
  apply (lang_cat (Class rs) (Star (Class rs)) [c] s); [by constructor|].
  induction Hall as [|d s Hd _ IH]; [constructor|].
  apply (lang_star_app (Class rs) [d] s); [by constructor | done].
Qed.

Lemma lang_items_cons (it : item) l s :
lang (re_of_items (it :: l)) s ↔
∃ s1 s2, s = s1 ++ s2 ∧ lang (re_of_item it) s1 ∧ lang (re_of_items l) s2.
Proof.
split; [apply lang_cat_inv|]. intros (s1 & s2 & -> & H1 & H2).
by apply lang_cat.
Qed.

Lemma lang_items_app l1 l2 s :
lang (re_of_items (l1 ++ l2)) s ↔
∃ s1 s2, s = s1 ++ s2 ∧ lang (re_of_items l1) s1 ∧ lang (re_of_items l2) s2.
Proof.
revert s. induction l1 as [|it l1 IH]; intros s.
- simpl. split.
  + intros H. exists [], s. split; [done|]. split; [constructor | done].
  + by intros (s1 & s2 & -> & ->%lang_eps_inv & H).
- rewrite <- app_comm_cons, lang_items_cons. split.
  + intros (u & v & -> & Hu & (s1 & s2 & -> & H1 & H2)%IH).
    exists (u ++ s1), s2. rewrite app_assoc. split; [done|].
    split; [|done]. apply lang_items_cons. eauto.
  + intros (s1 & s2 & -> & (u & v & -> & Hu & Hv)%lang_items_cons & H2).
    exists u, (v ++ s2). rewrite app_assoc. split; [done|].
    split; [done|]. apply IH. eauto.
Qed.

Lemma lang_lit_items w s : lang (re_of_items (map lit_item w)) s ↔ s = w.
Proof.
revert s. induction w as [|c w IH]; intros s; simpl map.
- simpl. split; [apply lang_eps_inv | intros ->; constructor].
- rewrite lang_items_cons. split.
  + intros (s1 & s2 & -> & ->%lang_lit & ->%IH). done.
  + intros ->. exists [c], w. split; [done|].
    split; [by apply lang_lit | by apply IH].
Qed.

Lemma lang_token_items s :
lang (re_of_items [token_item]) s ↔
s ≠ [] ∧ Forall (λ c, is_token_char c = true) s.
Proof.
rewrite lang_items_cons. split.
- intros (s1 & s2 & -> & H1 & ->%lang_eps_inv). rewrite app_nil_r.
  by apply lang_plus_class.
- intros H. exists s, []. rewrite app_nil_r. split; [done|].
  split; [by apply lang_plus_class | constructor].
Qed.

Lemma lang_segment_items seg piece :
lang (re_of_items (segment_items seg)) piece ↔ fits seg piece.
Proof.
unfold segment_items, fits. destruct (HasPrefix seg "{").
- apply lang_token_items.
- apply lang_lit_items.
Qed.

(** The words of the matcher of a template are the paths whose pieces fit
    the segments of the template one by one. *)
Lemma lang_template segs mid :
lang (re_of_items (template_items segs)) mid ↔
∃ pieces, mid = join_segments pieces ∧ Forall2 fits segs pieces.
Proof.
revert mid. unfold template_items, join_segments.
induction segs as [|seg segs IH]; intros mid.
- simpl. split.
  + intros ->%lang_eps_inv. by exists [].
  + intros (pieces & -> & ->%Forall2_nil_inv_l). constructor.
- cbn [map concat]. rewrite <- app_comm_cons, lang_items_cons. split.
  + intros (s1 & s2 & -> & ->%(lang_lit "/")
            & (piece & rest & -> & Hp%lang_segment_items
               & (pieces & -> & Hrest)%IH)%lang_items_app).
    exists (piece :: pieces). split; [done | by constructor].
  + intros (pieces & -> & (piece & rest & Hp & Hrest & ->)%Forall2_cons_inv_l).
    exists ["/"], (piece ++ concat (map (cons "/") rest)).
    split; [done|]. split; [by apply (lang_lit "/")|].
    apply lang_items_app. exists piece, (concat (map (cons "/") rest)).
    split; [done|]. split; [by apply lang_segment_items|].
    apply IH. eauto.
Qed.

(** A piece that fits a segment of a valid template has no separator. *)
Lemma fits_no_slash seg piece :
good_segment seg → fits seg piece → Forall (λ c, c ≠ "/") piece.
Proof.
intros Hseg. unfold fits. destruct (HasPrefix seg "{") eqn:Hp.
- intros [_ Hall]. eapply Forall_impl; [done|]. simpl. by intros c Hc ->.
- intros ->. apply good_segment_chars in Hseg as [_ Hall].
  eapply Forall_impl; [done|]. simpl. tauto.
Qed.

Lemma fits_all_no_slash segs pieces :
Forall good_segment segs → Forall2 fits segs pieces →
Forall (Forall (λ c, c ≠ "/")) pieces.
Proof.
intros Hsegs Hfits. induction Hfits as [|seg piece segs pieces Hf _ IH];
  [done|].
apply Forall_cons in Hsegs as [Hseg Hsegs].
constructor; [by apply (fits_no_slash seg) | by apply IH].
Qed.

(** The segments of a valid template, from its split. *)
Lemma valid_segments path :
isValidPath path = true →
let segs := tail (Split path "/") in
path = join_segments segs
∧ (path = str "/" ∨ Forall good_segment segs)
∧ ∃ text, toRegexPath path
          = Some (mkRegexp text false false (re_of_items (template_items segs))).
Proof.
intros [->|(segs & _ & -> & Hsegs)]%isValidPath_shape.
- split; [done|]. split; [by left|]. by eexists.
- rewrite Split_join by by apply good_segment_no_slash. simpl.
  split; [done|]. split; [by right|]. by apply toRegexPath_join.
Qed.

End MatcherFacts.

(** X2: the matcher of a valid template accepts a path exactly when the path
    contains, somewhere, a run of pieces [/p1/p2/...] that fit the segments
    of the template one by one: a literal segment by itself, a segment in
    braces by any non-empty run of letters, digits, underscores and
    hyphens. *)
Theorem toRegexPath_accepts template R calledPath :
isValidPath template = true →
toRegexPath template = Some R →
(MatchString R calledPath = true ↔
 ∃ before pieces after,
   calledPath = before ++ join_segments pieces ++ after
   ∧ Forall2 fits (tail (Split template "/")) pieces).
Proof.
intros Hvalid HR.
destruct (MatcherFacts.valid_segments template Hvalid) as (_ & _ & text & Ht).
rewrite Ht in HR. injection HR as <-.
rewrite RegexpFacts.MatchString_spec. simpl. split.
- intros (pre & mid & post & -> & (pieces & -> & Hf)%MatcherFacts.lang_template
          & _).
  by exists pre, pieces, post.
- intros (pre & pieces & post & -> & Hf).
  exists pre, (join_segments pieces), post. split; [done|].
  split; [|done]. apply MatcherFacts.lang_template. eauto.
Qed.

Lemma toRegexPath_accepts_witness :
∃ R, toRegexPath (str "/users/{id}") = Some R
     ∧ MatchString R (str "/v1/users/u-7/posts") = true.
Proof.
destruct (toRegexPath (str "/users/{id}")) as [R|] eqn:HR;
  [|vm_compute in HR; discriminate].
exists R. split; [done|].
apply (proj2 (toRegexPath_accepts (str "/users/{id}") R
                (str "/v1/users/u-7/posts") eq_refl HR)).
exists (str "/v1"), [str "users"; str "u-7"], (str "/posts").
split; [done|]. repeat constructor; by vm_compute.
Defined.

(** ** The values of path variables *)
Module ValuesFacts.
Import RegexpFacts PathFacts.

(** Variables with other names leave an entry of the map as it is. *)
Lemma extract_values_loop_other parts vars acc m key :
extract_values_loop parts vars acc = Some m →
Forall (λ v, variableName v ≠ key) vars →
m !! key = acc !! key.
Proof.
revert acc. induction vars as [|v vars IH]; intros acc; simpl.
- by intros [= <-].
- destruct (index_parts parts (pathIndex v + 1)) as [value|]; [|done].
  intros Hm [Hv Hvars]%Forall_cons. rewrite (IH _ Hm Hvars).
  by rewrite lookup_insert_ne.
Qed.

(** The last variable of a name decides its value. *)
Lemma extract_values_loop_last parts vars1 v vars2 acc m :
extract_values_loop parts (vars1 ++ v :: vars2) acc = Some m →
Forall (λ u, variableName u ≠ variableName v) vars2 →
m !! variableName v = index_parts parts (pathIndex v + 1).
Proof.
revert acc. induction vars1 as [|u vars1 IH]; intros acc; simpl.
- destruct (index_parts parts (pathIndex v + 1)) as [value|]; [|done].
  intros Hm Hvars. rewrite (extract_values_loop_other _ _ _ _ _ Hm Hvars).
  by rewrite lookup_insert_eq.
- destruct (index_parts parts (pathIndex u + 1)) as [value|]; [|done].
  apply IH.
Qed.

Lemma extract_values_loop_Some parts vars acc :
is_Some (extract_values_loop parts vars acc) →
Forall (λ v, (0 <= pathIndex v + 1 < Z.of_nat (length parts))%Z) vars.
Proof.
revert acc. induction vars as [|v vars IH]; intros acc; simpl; [done|].
unfold index_parts. destruct (Z.ltb_spec (pathIndex v + 1) 0); [by intros [? ?]|].
destruct (parts !! Z.to_nat (pathIndex v + 1)) as [value|] eqn:E;
  [|by intros [? ?]].
intros Hm%IH. constructor; [|done].
apply lookup_lt_Some in E. lia.
Qed.

Lemma extract_names_loop_app k parts1 parts2 :
extract_names_loop k (parts1 ++ parts2) =
extract_names_loop k parts1
++ extract_names_loop (k + Z.of_nat (length parts1)) parts2.
Proof.
revert k. induction parts1 as [|p parts1 IH]; intros k; simpl.
- by rewrite Z.add_0_r.
- replace (k + Z.of_nat (S (length parts1)))%Z
    with (k + 1 + Z.of_nat (length parts1))%Z by lia.
  rewrite IH. by destruct (HasPrefix p "{").
Qed.

(** The names of the variables of valid segments are the names in their
    braces. *)
Lemma extract_names_loop_names k segs key :
Forall good_segment segs →
(∀ seg, seg ∈ segs → seg ≠ "{" :: key ++ ["}"]) →
Forall (λ v, variableName v ≠ key) (extract_names_loop k segs).
Proof.
intros Hsegs. revert k. induction Hsegs as [|seg segs Hseg _ IH];
  intros k Hne; simpl; [done|].
assert (Forall (λ v, variableName v ≠ key) (extract_names_loop (k + 1) segs))
  as Hrest.
{ apply IH. intros s Hs. apply Hne. by apply list_elem_of_further. }
destruct Hseg as [H|(name & -> & H)].
- by destruct (sub_segment_head _ H) as [-> _].
- simpl. constructor; [|done]. simpl.
  rewrite (removeBraces_braced name) by by apply sub_lang_chars.
  intros ->. apply (Hne ("{" :: key ++ ["}"])); [apply list_elem_of_here | done].
Qed.

End ValuesFacts.

(** X3: the extraction of the values succeeds exactly when, for every
    variable, the index plus one is a position of the split of the path;
    with no variables it always gives the empty map. *)
Theorem extractPathVariableValues_succeeds_iff path pathVariables :
(is_Some (extractPathVariableValues path pathVariables) ↔
 Forall (λ v, (0 <= pathIndex v + 1
               < Z.of_nat (length (Split path "/")))%Z) pathVariables)
∧ extractPathVariableValues path [] = Some ∅.
Proof.
split; [|done]. split.
- apply ValuesFacts.extract_values_loop_Some.
- apply PathFacts.extract_values_loop_in_range.
Qed.

(** X4: for a valid template and a path whose pieces fit its segments one by
    one, the extraction gives each variable the piece at the place of its
    segment (for a name used twice, at the place of the last one), and
    nothing for a name that no segment has. *)
Theorem extractPathVariableValues_round_trip template pieces :
isValidPath template = true →
Forall2 fits (tail (Split template "/")) pieces →
∃ m,
  extractPathVariableValues (join_segments pieces)
    (extractPathVariableNames template) = Some m
  ∧ (∀ i name,
       tail (Split template "/") !! i = Some ("{" :: name ++ ["}"]) →
       (∀ j, i < j →
          tail (Split template "/") !! j ≠ Some ("{" :: name ++ ["}"])) →
       m !! name = pieces !! i)
  ∧ (∀ name,
       (∀ i, tail (Split template "/") !! i ≠ Some ("{" :: name ++ ["}"])) →
       m !! name = None).
Proof.
intros Hvalid Hfits.
destruct (PathFacts.isValidPath_shape template Hvalid)
  as [->|(segs & _ & -> & Hsegs)].
{ exists ∅. split; [done|]. split.
  - intros [|[|i]] name Hi; done.
  - intros name _. apply lookup_empty. }
revert Hfits.
rewrite PathFacts.Split_join by by apply PathFacts.good_segment_no_slash.
simpl tail. intros Hfits.
assert (extractPathVariableNames (join_segments segs)
        = extract_names_loop 1 segs) as Hnames.
{ unfold extractPathVariableNames.
  by rewrite PathFacts.Split_join by by apply PathFacts.good_segment_no_slash. }
assert (Split (join_segments pieces) "/" = [] :: pieces) as Hsplit.
{ apply PathFacts.Split_join. by apply (MatcherFacts.fits_all_no_slash segs). }
unfold extractPathVariableValues. rewrite Hsplit, Hnames.
destruct (PathFacts.extract_values_loop_in_range ([] :: pieces)
            (extract_names_loop 1 segs) ∅) as [m Hm].
{ eapply Forall_impl; [apply PathFacts.extract_names_loop_bound; lia|].
  simpl. intros v. rewrite <- (Forall2_length _ _ _ Hfits). lia. }
exists m. split; [done|]. split.
- intros i name Hi Hlast.
  pose proof (take_drop_middle segs i _ Hi) as Hmid.
  rewrite <- Hmid in Hsegs.
  apply Forall_app in Hsegs as [_ [Hseg Hrest]%Forall_cons].
  assert (Forall sub_char name) as Hname.
  { destruct Hseg as [H|(n & [= Hn%app_inj_tail] & H)].
    - by destruct (PathFacts.sub_segment_head _ H).
    - destruct Hn as [<- _]. by apply PathFacts.sub_lang_chars. }
  rewrite <- Hmid, ValuesFacts.extract_names_loop_app in Hm.
  cbn [extract_names_loop HasPrefix] in Hm.
  change (Ascii.eqb "{" "{") with true in Hm. cbv iota in Hm.
  rewrite (PathFacts.removeBraces_braced name Hname) in Hm.
  apply ValuesFacts.extract_values_loop_last in Hm.
  + simpl in Hm. rewrite Hm. unfold index_parts. rewrite length_take_le.
    2:{ apply lookup_lt_Some in Hi. lia. }
    destruct (Z.ltb_spec (1 + Z.of_nat i - 1 + 1) 0); [lia|].
    replace (Z.to_nat (1 + Z.of_nat i - 1 + 1)) with (S i) by lia. done.
  + apply ValuesFacts.extract_names_loop_names; [done|].
    intros seg (j & Hj)%list_elem_of_lookup ->.
    rewrite lookup_drop in Hj. apply (Hlast (S i + j)); [lia | done].
- intros name Hnone.
  rewrite (ValuesFacts.extract_values_loop_other _ _ _ _ name Hm); [done|].
  apply ValuesFacts.extract_names_loop_names; [done|].
  intros seg (j & Hj)%list_elem_of_lookup ->. by apply (Hnone j).
Qed.

Lemma extractPathVariableValues_round_trip_witness :
∃ m,
  extractPathVariableValues (str "/users/42")
    (extractPathVariableNames (str "/users/{id}")) = Some m
  ∧ m !! str "id" = Some (str "42").
Proof.
destruct (extractPathVariableValues_round_trip (str "/users/{id}")
            [str "users"; str "42"]) as (m & Hm & Hlookup & _).
- vm_compute. reflexivity.
- repeat constructor; by vm_compute.
- exists m. split; [exact Hm|].
  apply (Hlookup 1%nat (str "id")); [reflexivity|].
  intros [|[|j]] Hj; [lia | lia | by vm_compute].
Defined.

(** ** Registries and filters *)
Section RegistryFacts.

Variable Value : Type.

Implicit Types (routes : gmap (list ascii) (list (CustomHandlerImpl Value))).
Implicit Types (h : CustomHandlerImpl Value) (d : Dispatcher Value).

Lemma first_match_app (l1 l2 : list (CustomHandlerImpl Value)) calledPath :
first_match (l1 ++ l2) calledPath =
match first_match l1 calledPath with
| Some h => Some h
| None => first_match l2 calledPath
end.
Proof.
induction l1 as [|h l1 IH]; simpl; [done|].
by destruct (MatchString (GetRegexPath h) calledPath).
Qed.

(** X5: [addRoute] leaves the lists of all other methods as they are in the
    map, and afterwards its own method has a list in the map, also when the
    call panicked: the key is created before the handler is checked. *)
Theorem addRoute_map routes httpMethod path ofn :
(∀ m, m ≠ httpMethod →
      fst (addRoute routes httpMethod path ofn) !! m = routes !! m)
∧ is_Some (fst (addRoute routes httpMethod path ofn) !! httpMethod)
∧ (routes !! httpMethod = None →
   snd (addRoute routes httpMethod path ofn) ≠ None →
   fst (addRoute routes httpMethod path ofn) !! httpMethod = Some []).
Proof.
unfold addRoute.
destruct (NewCustomHandlerImpl httpMethod path ofn) as [e|h]; simpl;
  destruct (routes !! httpMethod) as [l|] eqn:E; repeat split;
  try (intros m Hm; by rewrite ?lookup_insert_ne by done);
  rewrite ?lookup_insert_eq, ?E; try done; by eexists.
Qed.

(** X6: the first match wins over later registrations: a lookup that found
    an entry finds the same entry after any further [addRoute]; a lookup
    that found none finds the new entry exactly when it was registered
    under the same method, was accepted, and matches the path. *)
Theorem getHandler_after_addRoute d d' httpMethod path ofn m calledPath :
routes d' = fst (addRoute (routes d) httpMethod path ofn) →
(∀ h, getHandler d m calledPath = Some h →
      getHandler d' m calledPath = Some h)
∧ (getHandler d m calledPath = None →
   ∀ h, getHandler d' m calledPath = Some h ↔
        m = httpMethod
        ∧ NewCustomHandlerImpl httpMethod path ofn = inr h
        ∧ MatchString (GetRegexPath h) calledPath = true).
Proof.
intros Hd'. unfold getHandler. rewrite Hd', entries_addRoute.
destruct (NewCustomHandlerImpl httpMethod path ofn) as [e|h0] eqn:E.
- split; [done|]. intros -> h. split; [done | by intros (_ & ? & _)].
- destruct (decide (m = httpMethod)) as [->|Hm].
  + rewrite first_match_app. split; [by intros h ->|]. intros -> h. simpl.
    destruct (MatchString (GetRegexPath h0) calledPath) eqn:Hmatch; split.
    * intros [= <-]. done.
    * by intros (_ & [= <-] & _).
    * done.
    * intros (_ & [= <-] & ?). congruence.
  + split; [done|]. intros -> h. split; [done | by intros (? & _)].
Qed.

Lemma filters_at_add (fs0 : Filters) key other f :
key ≠ other →
filters_at (mkFilters (<[key := filters_at fs0 key ++ [f]]> (filters fs0))) key
= filters_at fs0 key ++ [f]
∧ filters_at (mkFilters (<[key := filters_at fs0 key ++ [f]]> (filters fs0)))
    other
  = filters_at fs0 other.
Proof.
intros Hne. unfold filters_at. cbn [filters].
by rewrite lookup_insert_eq, lookup_insert_ne.
Qed.

Lemma add_filters_from (fs0 : Filters) (calls : list FilterAdd) :
∃ fs,
  foldl add_filter (Some fs0) calls = Some fs
  ∧ filters_at fs (str "pre")
    = filters_at fs0 (str "pre") ++ pre_filters_of calls
  ∧ filters_at fs (str "post")
    = filters_at fs0 (str "post") ++ post_filters_of calls.
Proof.
revert fs0. induction calls as [|call calls IH]; intros fs0.
- exists fs0. split; [done|].
  change (pre_filters_of []) with (@nil FilterFunc).
  change (post_filters_of []) with (@nil FilterFunc).
  by rewrite !app_nil_r.
- destruct call as [f|f].
  + destruct (filters_at_add fs0 (str "pre") (str "post") f) as [H1 H2];
      [by intros [=]|].
    change (foldl add_filter (Some fs0) (AddPre f :: calls))
      with (foldl add_filter
              (Some (mkFilters (<[str "pre" := filters_at fs0 (str "pre") ++ [f]]>
                                  (filters fs0)))) calls).
    change (pre_filters_of (AddPre f :: calls)) with (f :: pre_filters_of calls).
    change (post_filters_of (AddPre f :: calls)) with (post_filters_of calls).
    destruct (IH (mkFilters (<[str "pre" := filters_at fs0 (str "pre") ++ [f]]>
                               (filters fs0)))) as (fs & -> & Hpre & Hpost).
    exists fs. split; [done|]. rewrite Hpre, Hpost, H1, H2.
    by rewrite <- app_assoc.
  + destruct (filters_at_add fs0 (str "post") (str "pre") f) as [H1 H2];
      [by intros [=]|].
    change (foldl add_filter (Some fs0) (AddPost f :: calls))
      with (foldl add_filter
              (Some (mkFilters (<[str "post" := filters_at fs0 (str "post") ++ [f]]>
                                  (filters fs0)))) calls).
    change (pre_filters_of (AddPost f :: calls)) with (pre_filters_of calls).
    change (post_filters_of (AddPost f :: calls)) with (f :: post_filters_of calls).
    destruct (IH (mkFilters (<[str "post" := filters_at fs0 (str "post") ++ [f]]>
                               (filters fs0)))) as (fs & -> & Hpre & Hpost).
    exists fs. split; [done|]. rewrite Hpre, Hpost, H1, H2.
    by rewrite <- app_assoc.
Qed.

(** X7: whatever the number and the interleaving of the calls of
    [AddPreFilter] and [AddPostFilter] on [NewFilters()], every call
    succeeds, and the dispatcher built from the result has as pre-filters
    the filters given to [AddPreFilter], in the order of the calls, and as
    post-filters those given to [AddPostFilter], in the order of the
    calls. *)
Theorem filters_in_call_order (calls : list FilterAdd) routes :
∃ fs,
  add_filters calls = Some fs
  ∧ NewDispatcher (Some routes) (Some fs)
    = Some (mkDispatcher routes (pre_filters_of calls) (post_filters_of calls)).
Proof.
destruct (add_filters_from NewFilters calls) as (fs & Hfs & Hpre & Hpost).
exists fs. split; [exact Hfs|].
change (NewDispatcher (Some routes) (Some fs))
  with (Some (mkDispatcher routes (filters_at fs (str "pre"))
                (filters_at fs (str "post")))).
by rewrite Hpre, Hpost.
Qed.

End RegistryFacts.

Lemma getHandler_after_addRoute_witness :
∃ h, getHandler Demo.open_dispatcher MethodGet (str "/path/new") = Some h
     ∧ getHandler
         (mkDispatcher
            (fst (GET Demo.demo_routes (str "/path/new") (Some Demo.getHandler)))
            [] [])
         MethodGet (str "/path/new") = Some h.
Proof.
destruct (getHandler Demo.open_dispatcher MethodGet (str "/path/new"))
  as [h|] eqn:Hh; [|vm_compute in Hh; discriminate].
exists h. split; [done|].
apply (proj1 (getHandler_after_addRoute (list ascii) Demo.open_dispatcher
                (mkDispatcher
                   (fst (GET Demo.demo_routes (str "/path/new")
                           (Some Demo.getHandler))) [] [])
                MethodGet (str "/path/new") (Some Demo.getHandler)
                MethodGet (str "/path/new") eq_refl) h Hh).
Defined.

Lemma addRoute_map_witness :
fst (addRoute (NewRoutes (list ascii)) MethodPost (str "/x")
       (Some Demo.getHandler)) !! MethodPost = Some [].
Proof.
apply (proj2 (proj2 (addRoute_map (list ascii) (NewRoutes (list ascii))
                       MethodPost (str "/x") (Some Demo.getHandler)))).
- reflexivity.
- vm_compute. discriminate.
Defined.

(** ** The course of a request *)
Section CourseFacts.

Variable Value : Type.
Variable json_Unmarshal xml_Unmarshal : list ascii -> Ty -> option Value.

Implicit Types (h : CustomHandlerImpl Value) (d : Dispatcher Value).

Lemma phase_run_app p evs1 evs2 :
phase_run p (evs1 ++ evs2) = phase_run p evs1 ≫= λ q, phase_run q evs2.
Proof.
revert p. induction evs1 as [|e evs1 IH]; intros p; simpl; [done|].
destruct (phase_step p e); [apply IH | done].
Qed.

(** The filters that [executeFilters] calls are the first ones of the
    list, all of them when it returns true and at least one otherwise. *)
Lemma executeFilters_calls request fs st ok st' :
executeFilters request fs st = (ok, st') →
∃ called rest,
  fs = called ++ rest
  ∧ events st' = events st ++ map (λ f, EvFilter (filter_name f)) called
  ∧ (if ok then rest = [] else called ≠ []).
Proof.
revert st. induction fs as [|f fs IH]; intros st; simpl.
- intros [= <- <-]. exists [], []. simpl. by rewrite app_nil_r.
- destruct (filter_run f request (world st)) as [[] w]; simpl.
  + intros (called & rest & -> & Hev & Hok)%IH.
    exists (f :: called), rest. split; [done|]. split; [|by destruct ok].
    rewrite Hev. simpl. by rewrite <- app_assoc.
  + intros [= <- <-]. exists [f], fs. done.
Qed.

Lemma phase_run_pre p (called : list FilterFunc) :
p = AtStart ∨ p = InPre →
phase_run p (map (λ f, EvFilter (filter_name f)) called)
= Some (match called with [] => p | _ => InPre end).
Proof.
intros Hp. destruct called as [|f called]; [done|].
assert (phase_step p (EvFilter (filter_name f)) = Some InPre) as Hs
  by by destruct Hp as [-> | ->].
simpl. rewrite Hs. clear. by induction called.
Qed.

Lemma phase_run_post p (called : list FilterFunc) :
p = Called ∨ p = Written ∨ p = InPost →
phase_run p (map (λ f, EvFilter (filter_name f)) called)
= Some (match called with [] => p | _ => InPost end).
Proof.
intros Hp. destruct called as [|f called]; [done|].
assert (phase_step p (EvFilter (filter_name f)) = Some InPost) as Hs
  by by destruct Hp as [-> | [-> | ->]].
simpl. rewrite Hs. clear. by induction called.
Qed.

(** What the call of the handler adds to the events. *)
Lemma WriteHttpResponse_events h inputs st :
∃ written,
  events (WriteHttpResponse h inputs st) =
  events st ++ EvHandler (handler_name (handlerValue h)) (length inputs)
            :: (if written : bool then [EvEnvelopeWrite] else []).
Proof.
unfold WriteHttpResponse. simpl.
destruct (handler_call (handlerValue h) inputs (world st)) as [[impl|] w].
- exists true. simpl. by rewrite <- app_assoc.
- by exists false.
Qed.

(** After the handler: its call, perhaps the write of the envelope, then
    post-filters. *)
Lemma after_handler_course request h inputs st post :
∃ evs p,
  events (snd (executeFilters request post (WriteHttpResponse h inputs st)))
  = events st ++ EvHandler (handler_name (handlerValue h)) (length inputs) :: evs
  ∧ phase_run Called evs = Some p ∧ may_end p = true
  ∧ Forall (λ e, is_handler_call e = false) evs.
Proof.
destruct (WriteHttpResponse_events h inputs st) as [written Hw].
destruct (executeFilters request post (WriteHttpResponse h inputs st))
  as [ok st'] eqn:E.
apply executeFilters_calls in E as (called & rest & _ & Hev & _).
simpl. rewrite Hev, Hw.
exists ((if written then [EvEnvelopeWrite] else [])
        ++ map (λ f, EvFilter (filter_name f)) called).
exists (match called with
        | [] => if written then Written else Called
        | _ => InPost
        end).
split; [by rewrite <- app_assoc|]. rewrite phase_run_app.
split; [|split].
- destruct written; simpl; (rewrite phase_run_post; [done | auto]).
- by destruct written, called.
- apply Forall_app. split; [by destruct written; repeat constructor|].
  apply Forall_forall. intros e (f & -> & _)%list_elem_of_fmap. done.
Qed.

(** X8: in a registry built by registration, the entry that a lookup returns
    carries the matcher and the path variables of one valid template, every
    index of its path variables plus one is a position of the split of the
    looked-up path, so that the extraction of the values does not fault, and
    an entry that takes a body has a body type to build the body from. *)
Theorem matched_entry_binds d httpMethod calledPath h :
built (routes d) →
getHandler d httpMethod calledPath = Some h →
(∃ template,
   isValidPath template = true
   ∧ toRegexPath template = Some (GetRegexPath h)
   ∧ GetPathVariableNames h = extractPathVariableNames template)
∧ Forall (λ v, (0 <= pathIndex v + 1
                < Z.of_nat (length (Split calledPath "/")))%Z)
    (GetPathVariableNames h)
∧ is_Some (extractPathVariableValues calledPath (GetPathVariableNames h))
∧ (HasRequestBody h = true → is_Some (GetRequestBodyType h)).
Proof.
intros Hb (before & after & Hl & _ & Hm)%first_match_Some.
destruct (built_registered Value (routes d) Hb httpMethod h)
  as (path & ofn & Hh).
{ rewrite Hl. apply elem_of_app. right. apply list_elem_of_here. }
apply NewCustomHandlerImpl_inr in Hh as (fn & R & _ & Hv & _ & HR & ->).
unfold GetRegexPath, GetPathVariableNames, HasRequestBody, GetRequestBodyType
  in *. simpl in *.
destruct (accepted_path_in_bounds path R calledPath Hv HR Hm) as [Hbound Hok].
split; [by exists path|]. split; [done|]. split; [done|].
intros Hbody%bool_decide_eq_true.
by destruct (if (NumIn (handler_type fn) =? 2)%nat
             then In_ (handler_type fn) 1 ≫= Ty_Elem else None).
Qed.

Lemma toRequestBodyObject_events request bodyType st result st' :
toRequestBodyObject json_Unmarshal xml_Unmarshal request bodyType st
= (result, st') →
(result = None ∧ events st' = events st ++ [EvReadBody])
∨ events st' = events st ++ [EvReadBody; EvUnmarshal].
Proof.
unfold toRequestBodyObject, ReadAll. simpl.
destruct (failing (body_stream (world st))); intros [= <- <-]; simpl.
- by left.
- right. by rewrite <- app_assoc.
Qed.

(** The events of a request that returns, by the path that it took. *)
Lemma ServeHTTP_events d request st st' :
ServeHTTP json_Unmarshal xml_Unmarshal d request st = Returned st' →
(getHandler d (Method request) (URL_Path request) = None
 ∧ events st' = events st ++ [EvNotFound])
∨ ∃ h called,
    getHandler d (Method request) (URL_Path request) = Some h
    ∧ ((called ≠ []
        ∧ events st' = events st ++ map (λ f, EvFilter (filter_name f)) called)
       ∨ (HasRequestBody h = true
          ∧ ∃ bind, (bind = [EvReadBody] ∨ bind = [EvReadBody; EvUnmarshal])
                    ∧ events st' =
                      events st ++ map (λ f, EvFilter (filter_name f)) called
                      ++ EvExtractPathVariables :: bind)
       ∨ ∃ evs p,
           events st' =
           events st ++ map (λ f, EvFilter (filter_name f)) called
           ++ EvExtractPathVariables
              :: (if HasRequestBody h then [EvReadBody; EvUnmarshal] else [])
              ++ EvHandler (handler_name (handlerValue h))
                   (if HasRequestBody h then 2 else 1) :: evs
           ∧ phase_run Called evs = Some p ∧ may_end p = true
           ∧ Forall (λ e, is_handler_call e = false) evs).
Proof.
unfold ServeHTTP.
destruct (getHandler d (Method request) (URL_Path request)) as [h|] eqn:Hh.
2:{ intros [= <-]. left. done. }
intros Hserve. right. exists h.
destruct (executeFilters request (preFilters d) st) as [ok st1] eqn:Hpre.
apply executeFilters_calls in Hpre as (called & rest & _ & Hev1 & Hok).
exists called. split; [done|]. destruct ok; simpl in Hserve.
2:{ injection Hserve as <-. left. done. }
destruct (extractPathVariableValues (URL_Path request) (GetPathVariableNames h))
  as [pv|]; [|done].
destruct (HasRequestBody h) eqn:Hbody; simpl in Hserve.
- destruct (GetRequestBodyType h) as [bodyType|]; [|done].
  destruct (toRequestBodyObject json_Unmarshal xml_Unmarshal request bodyType
              (record_event EvExtractPathVariables st1))
    as [[v|] st3] eqn:Hbind;
    apply toRequestBodyObject_events in Hbind as [[Hr Hev3]|Hev3]; try done;
    simpl in Hev3; injection Hserve as <-.
  + right. right.
    destruct (after_handler_course request h
                (inputsWithRequestBody (mkHttp request pv) v) st3
                (postFilters d)) as (evs & p & Hev & Hrun & Hend & Hno).
    exists evs, p. split; [|done]. rewrite Hev, Hev3, Hev1. simpl.
    by rewrite <- !app_assoc.
  + right. left. split; [done|]. exists [EvReadBody]. split; [by left|].
    rewrite Hev3, Hev1. by rewrite <- !app_assoc.
  + right. left. split; [done|]. exists [EvReadBody; EvUnmarshal].
    split; [by right|]. rewrite Hev3, Hev1. by rewrite <- !app_assoc.
- injection Hserve as <-. right. right.
  destruct (after_handler_course request h
              (inputsWithoutRequestBody Value (mkHttp request pv))
              (record_event EvExtractPathVariables st1)
              (postFilters d)) as (evs & p & Hev & Hrun & Hend & Hno).
  exists evs, p. split; [|done]. rewrite Hev. simpl. rewrite Hev1.
  by rewrite <- !app_assoc.
Qed.

(** X9: a request that returns went through the steps of the state machine
    of the dispatcher, in its order, and ended where a request may end: a
    miss; or pre-filters, then the extraction of the path variables, then
    for a handler with a body the read and the deserialization, then the
    one call of the handler, the write of its envelope, and post-filters. *)
Theorem ServeHTTP_course d request st st' :
ServeHTTP json_Unmarshal xml_Unmarshal d request st = Returned st' →
∃ evs p,
  events st' = events st ++ evs
  ∧ phase_run AtStart evs = Some p
  ∧ may_end p = true
  ∧ length (filter (λ e, is_handler_call e = true) evs) ≤ 1.
Proof.
assert (∀ called : list FilterFunc,
          filter (λ e, is_handler_call e = true)
            (map (λ f, EvFilter (filter_name f)) called) = []) as Hfilters.
{ intros called. by induction called. }
assert (∀ called : list FilterFunc,
          phase_step match called with [] => AtStart | _ => InPre end
            EvExtractPathVariables = Some Bound) as Hextract.
{ intros called. by destruct called. }
intros [[_ Hev]|(h & called & _ & [[Hne Hev]|[(Hb & bind & Hbind & Hev)
                |(evs & p & Hev & Hrun & Hend & Hno)]])]%ServeHTTP_events.
- exists [EvNotFound], NotFound. repeat (split; [done|]).
  rewrite filter_cons_False by done. simpl. lia.
- exists (map (λ f, EvFilter (filter_name f)) called), InPre.
  split; [done|]. rewrite phase_run_pre by auto.
  split; [by destruct called|]. split; [done|]. rewrite Hfilters. simpl. lia.
- destruct Hbind as [-> | ->]; eexists _, _; (split; [done|]);
    rewrite phase_run_app, phase_run_pre by auto; simpl; rewrite Hextract;
    (split; [reflexivity|]); (split; [done|]);
    rewrite filter_app, Hfilters; simpl; lia.
- assert (filter (λ e, is_handler_call e = true) evs = []) as Hevs.
  { clear -Hno. induction Hno as [|e evs He _ IH]; [done|].
    rewrite filter_cons_False by (by rewrite He). done. }
  exists (map (λ f, EvFilter (filter_name f)) called
          ++ EvExtractPathVariables
             :: (if HasRequestBody h then [EvReadBody; EvUnmarshal] else [])
             ++ EvHandler (handler_name (handlerValue h))
                  (if HasRequestBody h then 2 else 1) :: evs), p.
  split; [done|]. rewrite phase_run_app, phase_run_pre by auto.
  simpl. rewrite Hextract.
  destruct (HasRequestBody h); simpl; rewrite Hrun; (split; [done|]);
    (split; [done|]); rewrite filter_app, Hfilters; simpl;
    rewrite Hevs; done.
Qed.

Lemma registered_NumIn httpMethod path ofn h :
NewCustomHandlerImpl httpMethod path ofn = inr h →
NumIn (handler_type (handlerValue h)) = if HasRequestBody h then 2 else 1.
Proof.
intros Hh. rewrite (registered_HasRequestBody Value _ _ _ _ Hh).
apply NewCustomHandlerImpl_inr in Hh as (fn & R & -> & _ & Hv & _ & ->).
simpl. destruct (handler_type fn) as [ins outs|t]; [|done].
by apply validateHandler_func in Hv
  as [[[-> ->]|(second & -> & Hk & ->)] _].
Qed.

(** X10: with a registry built by registration, the handler that is called
    is the one the lookup returned, and it is called with as many arguments
    as its function type has parameters. *)
Theorem ServeHTTP_handler_arity d request st st' :
built (routes d) →
ServeHTTP json_Unmarshal xml_Unmarshal d request st = Returned st' →
∃ evs,
  events st' = events st ++ evs
  ∧ ∀ name k, EvHandler name k ∈ evs →
      ∃ h, getHandler d (Method request) (URL_Path request) = Some h
           ∧ name = handler_name (handlerValue h)
           ∧ k = NumIn (handler_type (handlerValue h)).
Proof.
assert (∀ (called : list FilterFunc) name k,
          EvHandler name k ∉ map (λ f, EvFilter (filter_name f)) called)
  as Hfilters.
{ intros called name k (f & ? & _)%list_elem_of_fmap. done. }
intros Hb [[_ Hev]|(h & called & Hh & [[Hne Hev]|[(Hbody & bind & Hbind & Hev)
                |(evs & p & Hev & Hrun & Hend & Hno)]])]%ServeHTTP_events;
  eexists; (split; [exact Hev|]); intros name k.
- by intros [= ]%list_elem_of_singleton.
- intros Hin. by apply Hfilters in Hin.
- intros [Hin|Hin]%elem_of_app; [by apply Hfilters in Hin|].
  apply elem_of_cons in Hin as [?|Hin]; [done|].
  destruct Hbind as [-> | ->];
    repeat (apply elem_of_cons in Hin as [?|Hin]; [done|]);
    by apply elem_of_nil in Hin.
- intros [Hin|Hin]%elem_of_app; [by apply Hfilters in Hin|].
  apply elem_of_cons in Hin as [?|Hin]; [done|].
  apply elem_of_app in Hin as [Hin|Hin].
  { destruct (HasRequestBody h);
      repeat (apply elem_of_cons in Hin as [?|Hin]; [done|]);
      by apply elem_of_nil in Hin. }
  apply elem_of_cons in Hin as [[= -> ->]|Hin].
  + exists h. split; [done|]. split; [done|].
    pose proof Hh as (before & after & Hl & _)%first_match_Some.
    destruct (built_registered Value (routes d) Hb (Method request) h)
      as (path & ofn & Hreg).
    { rewrite Hl. apply elem_of_app. right. apply list_elem_of_here. }
    by rewrite (registered_NumIn _ _ _ _ Hreg).
  + by pose proof (proj1 (Forall_forall _ _) Hno _ Hin).
Qed.

(** X11: with a registry built by registration, when the pre-filters pass
    the handler receives the request with the values of the path variables
    extracted from its path and, if it takes a body and the body can be
    read and deserialized, that body; the body stream is then empty.  The
    post-filters run on the state that the handler and the write of its
    envelope leave. *)
Theorem ServeHTTP_invokes d request st h st1 :
built (routes d) →
getHandler d (Method request) (URL_Path request) = Some h →
executeFilters request (preFilters d) st = (true, st1) →
∃ pathVariableValues,
  extractPathVariableValues (URL_Path request) (GetPathVariableNames h)
  = Some pathVariableValues
  ∧ (HasRequestBody h = false →
     ServeHTTP json_Unmarshal xml_Unmarshal d request st =
     Returned
       (snd (executeFilters request (postFilters d)
               (WriteHttpResponse h [InHttp Value (mkHttp request pathVariableValues)]
                  (mkState (world st1)
                     (events st1 ++ [EvExtractPathVariables]))))))
  ∧ (∀ bodyType requestBody,
       GetRequestBodyType h = Some bodyType →
       failing (body_stream (world st1)) = false →
       unmarshal json_Unmarshal xml_Unmarshal (Header_ContentType request)
         (pending (body_stream (world st1))) bodyType = Some requestBody →
       ServeHTTP json_Unmarshal xml_Unmarshal d request st =
       Returned
         (snd (executeFilters request (postFilters d)
                 (WriteHttpResponse h
                    [InHttp Value (mkHttp request pathVariableValues);
                     InBody requestBody]
                    (mkState
                       (mkWorld (sink (world st1)) (mkReader [] false))
                       (events st1
                        ++ [EvExtractPathVariables; EvReadBody; EvUnmarshal])))))).
Proof.
intros Hb Hh Hpre.
destruct (getHandler_extract_ok Value d _ _ h Hb Hh) as [pv Hpv].
exists pv. split; [done|]. unfold ServeHTTP. rewrite Hh, Hpre. simpl.
rewrite Hpv. split.
- intros ->. done.
- intros bodyType requestBody Htype Hread Hbody.
  assert (HasRequestBody h = true) as ->.
  { unfold HasRequestBody. unfold GetRequestBodyType in Htype.
    rewrite Htype. done. }
  simpl. rewrite Htype. unfold toRequestBodyObject, ReadAll. simpl.
  rewrite Hread, Hbody. unfold record_event, inputsWithRequestBody. simpl.
  by rewrite <- !app_assoc.
Qed.

End CourseFacts.

Lemma matched_entry_binds_witness :
∃ h,
  getHandler Demo.open_dispatcher MethodPost (str "/v1/path/7/x") = Some h
  ∧ is_Some (extractPathVariableValues (str "/v1/path/7/x")
               (GetPathVariableNames h))
  ∧ is_Some (GetRequestBodyType h).
Proof.
destruct (getHandler Demo.open_dispatcher MethodPost (str "/v1/path/7/x"))
  as [h|] eqn:Hh; [|vm_compute in Hh; discriminate].
destruct (matched_entry_binds (list ascii) Demo.open_dispatcher MethodPost
            (str "/v1/path/7/x") h demo_routes_built Hh)
  as (_ & _ & Hvalues & Htype).
exists h. split; [done|]. split; [exact Hvalues|]. apply Htype.
vm_compute in Hh. injection Hh as <-. reflexivity.
Defined.

Lemma ServeHTTP_course_witness :
∃ st' evs p,
  Demo.serve Demo.open_dispatcher (mkRequest MethodPost (str "/path/7") [])
    (Demo.start (str "{}") false) = Returned st'
  ∧ events st' = [] ++ evs
  ∧ phase_run AtStart evs = Some p
  ∧ may_end p = true.
Proof.
destruct (Demo.serve Demo.open_dispatcher
            (mkRequest MethodPost (str "/path/7") [])
            (Demo.start (str "{}") false)) as [st'|st'] eqn:E;
  [|vm_compute in E; discriminate].
destruct (ServeHTTP_course (list ascii) Demo.unmarshal_nonempty
            Demo.unmarshal_nonempty Demo.open_dispatcher
            (mkRequest MethodPost (str "/path/7") [])
            (Demo.start (str "{}") false) st' E)
  as (evs & p & Hev & Hrun & Hend & _).
by exists st', evs, p.
Defined.

Lemma ServeHTTP_handler_arity_witness :
∃ st' evs,
  Demo.serve Demo.open_dispatcher (mkRequest MethodPost (str "/path/7") [])
    (Demo.start (str "{}") false) = Returned st'
  ∧ events st' = [] ++ evs
  ∧ EvHandler 2 2 ∈ evs.
Proof.
destruct (Demo.serve Demo.open_dispatcher
            (mkRequest MethodPost (str "/path/7") [])
            (Demo.start (str "{}") false)) as [st'|st'] eqn:E;
  [|vm_compute in E; discriminate].
destruct (ServeHTTP_handler_arity (list ascii) Demo.unmarshal_nonempty
            Demo.unmarshal_nonempty Demo.open_dispatcher
            (mkRequest MethodPost (str "/path/7") [])
            (Demo.start (str "{}") false) st' demo_routes_built E)
  as (evs & Hev & _).
exists st', evs. split; [done|]. split; [done|].
vm_compute in E. injection E as <-. simpl in Hev. subst evs.
do 4 apply list_elem_of_further. apply list_elem_of_here.
Defined.

Lemma ServeHTTP_invokes_witness :
Demo.serve Demo.open_dispatcher (mkRequest MethodGet (str "/path/7") [])
  (Demo.start [] false)
= Returned
    (mkState
       (mkWorld [WriteHeader 200;
                 HeaderSet (str "Content-Type") (str "text/plain");
                 Write (str "hello")] (mkReader [] false))
       [EvFilter 10; EvExtractPathVariables; EvHandler 1 1; EvEnvelopeWrite;
        EvFilter 20]).
Proof.
destruct (getHandler Demo.open_dispatcher MethodGet (str "/path/7"))
  as [h|] eqn:Hh; [|vm_compute in Hh; discriminate].
destruct (ServeHTTP_invokes (list ascii) Demo.unmarshal_nonempty
            Demo.unmarshal_nonempty Demo.open_dispatcher
            (mkRequest MethodGet (str "/path/7") []) (Demo.start [] false) h
            (mkState (mkWorld [] (mkReader [] false)) [EvFilter 10])
            demo_routes_built Hh eq_refl) as (pv & Hpv & Hserve & _).
unfold Demo.serve. rewrite Hserve.
- vm_compute in Hh. injection Hh as <-. reflexivity.
- vm_compute in Hh. injection Hh as <-. reflexivity.
Defined.

(** ** Pattern texts and envelopes *)

Lemma MustCompile_source s R :
MustCompile s = Some R →
source R = s ∧ anchor_begin R = false ∧ anchor_end R = false.
Proof.
unfold MustCompile. destruct (parse None [] s); [|done]. by intros [= <-].
Qed.

(** X12: the pattern text of a valid template is the template with every
    segment in braces replaced by the token pattern and every other segment
    kept, and it has no anchors. *)
Theorem toRegexPath_source template R :
isValidPath template = true →
toRegexPath template = Some R →
source R = concat (map (λ seg, "/" :: segment_text seg)
                     (tail (Split template "/")))
∧ anchor_begin R = false ∧ anchor_end R = false.
Proof.
intros Hvalid HR. unfold toRegexPath in HR.
apply MustCompile_source in HR as (-> & Hb & He). split; [|done].
apply PathFacts.isValidPath_shape in Hvalid as [->|(segs & _ & -> & Hsegs)];
  [done|].
rewrite PathFacts.Split_join by by apply PathFacts.good_segment_no_slash.
by apply PathFacts.ReplaceAllString_join.
Qed.

Lemma toRegexPath_source_witness :
∃ R, toRegexPath (str "/users/{id}/posts") = Some R
     ∧ source R = str "/users/[a-zA-Z0-9_-]+/posts".
Proof.
destruct (toRegexPath (str "/users/{id}/posts")) as [R|] eqn:HR;
  [|vm_compute in HR; discriminate].
exists R. split; [done|].
apply (proj1 (toRegexPath_source (str "/users/{id}/posts") R eq_refl HR)).
Defined.

Section EnvelopeFacts.

Variable Value : Type.

Lemma custom_headers_no_status hs :
filter (λ op, is_write_header op = true) (set_custom_headers hs) = []
∧ filter (λ op, is_body_write op = true) (set_custom_headers hs) = []
∧ ∀ data, Write data ∉ set_custom_headers hs.
Proof.
induction hs as [|kv hs (IH1 & IH2 & IH3)]; simpl.
- repeat split; try done. intros data. apply not_elem_of_nil.
- rewrite !filter_cons_False by done. repeat split; try done.
  intros data [?|?]%elem_of_cons; [done | by eapply IH3].
Qed.

Lemma headed_discipline sc key value hs body :
body = [] ∨ (∃ data, body = [Write data]) →
length (filter (λ op, is_write_header op = true)
          ([WriteHeader sc; HeaderSet key value]
           ++ set_custom_headers hs ++ body)) = 1
∧ length (filter (λ op, is_body_write op = true)
            ([WriteHeader sc; HeaderSet key value]
             ++ set_custom_headers hs ++ body)) ≤ 1
∧ ∀ data, Write data ∈ [WriteHeader sc; HeaderSet key value]
                        ++ set_custom_headers hs ++ body →
          last ([WriteHeader sc; HeaderSet key value]
                ++ set_custom_headers hs ++ body) = Some (Write data).
Proof.
intros Hbody.
destruct (custom_headers_no_status hs) as (H1 & H2 & H3).
change ([WriteHeader sc; HeaderSet key value] ++ ?l)
  with (WriteHeader sc :: HeaderSet key value :: l).
rewrite (filter_cons_True (λ op, is_write_header op = true)) by done.
rewrite (filter_cons_False (λ op, is_write_header op = true)) by done.
rewrite !(filter_cons_False (λ op, is_body_write op = true)) by done.
rewrite !filter_app, H1, H2.
destruct Hbody as [->|[b ->]].
- split; [done|]. split; [simpl; lia|]. intros data.
  rewrite app_nil_r.
  intros [?|[?|Hin]%elem_of_cons]%elem_of_cons; try done. by apply H3 in Hin.
- split; [done|]. split; [done|]. intros data.
  intros [?|[?|[Hin|Hin%list_elem_of_singleton]%elem_of_app]%elem_of_cons]%elem_of_cons;
    try done; [by apply H3 in Hin|].
  injection Hin as ->.
  change (?a :: ?b :: ?l ++ [?x]) with ((a :: b :: l) ++ [x]).
  apply last_snoc.
Qed.

(** X13: every envelope adds its calls after those already made on the sink;
    among them the status code is set exactly once, the body is written at
    most once, and a write of the body is the last call. *)
Theorem write_discipline (impl : HttpResponse Value) (response : list SinkOp) :
∃ ops,
  write impl response = response ++ ops
  ∧ length (filter (λ op, is_write_header op = true) ops) = 1
  ∧ length (filter (λ op, is_body_write op = true) ops) ≤ 1
  ∧ ∀ data, Write data ∈ ops → last ops = Some (Write data).
Proof.
unfold write. eexists. split; [reflexivity|].
destruct impl as [r|r| |r].
- apply headed_discipline.
  destruct (rw_marshal r (rw_responseBody r)); eauto.
- unfold FileResponseWriter_write.
  destruct (0 <? fw_contentLength r)%Z; cbn [app];
    (split; [done|]); (split; [simpl; lia|]); intros data Hin;
    repeat (apply elem_of_cons in Hin as [Hin|Hin]; [try done|]);
    try (by apply elem_of_nil in Hin); by injection Hin as ->.
- split; [done|]. split; [simpl; lia|].
  intros data [?|?%elem_of_nil]%elem_of_cons; done.
- apply headed_discipline. eauto.
Qed.

End EnvelopeFacts.

(** ** Errors of registration, and chains of filters *)
Section ErrorFacts.

Variable Value : Type.

(** X14: registration checks the handler for nil first, then the path
    template, then the shape of the handler; once these pass, compiling the
    matcher never fails. *)
Theorem NewCustomHandlerImpl_errors httpMethod path
    (ofn : option (HandlerFunction Value)) :
(ofn = None → NewCustomHandlerImpl httpMethod path ofn = inl ErrNilHandler)
∧ (∀ fn, ofn = Some fn → isValidPath path = false →
         NewCustomHandlerImpl httpMethod path ofn = inl ErrInvalidPath)
∧ (∀ fn e, ofn = Some fn → isValidPath path = true →
           validateHandler httpMethod (handler_type fn) = Some e →
           NewCustomHandlerImpl httpMethod path ofn = inl e)
∧ (∀ fn, ofn = Some fn → isValidPath path = true →
         validateHandler httpMethod (handler_type fn) = None →
         ∃ h, NewCustomHandlerImpl httpMethod path ofn = inr h
              ∧ toRegexPath path = Some (GetRegexPath h)
              ∧ handlerValue h = fn)
∧ NewCustomHandlerImpl httpMethod path ofn ≠ inl ErrRegexp.
Proof.
unfold NewCustomHandlerImpl. repeat split.
- by intros ->.
- by intros fn -> ->.
- by intros fn e -> -> ->.
- intros fn -> Hp ->. rewrite Hp. simpl.
  destruct (toRegexPath_valid path Hp) as (R & -> & _). by eexists.
- destruct ofn as [fn|]; [|done].
  destruct (isValidPath path) eqn:Hp; [|done]. simpl.
  destruct (toRegexPath_valid path Hp) as (R & -> & _).
  destruct (validateHandler httpMethod (handler_type fn)) as [e|] eqn:Hv;
    [|done].
  intros [= ->]. destruct (handler_type fn) as [ins outs|t]; [|done].
  simpl in Hv. unfold panic_if in Hv.
  repeat (case_match; try done).
Qed.

(** X16: [executeFilters] calls the filters in the order of the list, up to
    the first that returns false: the filters called are the first ones of
    the list, all of them when the result is true, and ending with the one
    that stopped the chain otherwise; the later ones have no effect. *)
Theorem executeFilters_prefix request fs st ok st' :
executeFilters request fs st = (ok, st') →
∃ called rest,
  fs = called ++ rest
  ∧ events st' = events st ++ map (λ f, EvFilter (filter_name f)) called
  ∧ (ok = true → rest = [])
  ∧ (ok = false → called ≠ [])
  ∧ executeFilters request called st = (ok, st').
Proof.
revert st. induction fs as [|f fs IH]; intros st; simpl.
- intros [= <- <-]. exists [], []. simpl. by rewrite app_nil_r.
- destruct (filter_run f request (world st)) as [[] w] eqn:Hf; simpl.
  + intros (called & rest & -> & Hev & Ht & Hf' & Hrun)%IH.
    exists (f :: called), rest. split; [done|].
    split; [rewrite Hev; simpl; by rewrite <- app_assoc|].
    split; [done|]. split; [done|]. simpl. by rewrite Hf.
  + intros [= <- <-]. exists [f], fs. repeat split; try done.
    simpl. by rewrite Hf.
Qed.

End ErrorFacts.

Lemma NewCustomHandlerImpl_errors_witness :
NewCustomHandlerImpl MethodGet (str "/Users") (Some Demo.getHandler)
= inl ErrInvalidPath
∧ NewCustomHandlerImpl MethodPost Demo.PATH (Some Demo.getHandler)
  = inl ErrNeedsTwoParameters.
Proof.
pose proof (NewCustomHandlerImpl_errors (list ascii) MethodGet (str "/Users")
              (Some Demo.getHandler)) as (_ & Hpath & _).
pose proof (NewCustomHandlerImpl_errors (list ascii) MethodPost Demo.PATH
              (Some Demo.getHandler)) as (_ & _ & Hshape & _).
split.
- by apply (Hpath Demo.getHandler).
- by apply (Hshape Demo.getHandler).
Defined.

Lemma executeFilters_prefix_witness :
∃ called rest,
  [Demo.pass_filter 1; Demo.reject_filter 2; Demo.pass_filter 3]
  = called ++ rest
  ∧ length called = 2.
Proof.
destruct (executeFilters_prefix
            (mkRequest MethodGet (str "/") [])
            [Demo.pass_filter 1; Demo.reject_filter 2; Demo.pass_filter 3]
            (Demo.start [] false) false
            (mkState (mkWorld [WriteHeader 403] (mkReader [] false))
               [EvFilter 1; EvFilter 2]) eq_refl)
  as (called & rest & Hfs & Hev & _).
exists called, rest. split; [exact Hfs|].
simpl in Hev. apply (f_equal length) in Hev.
rewrite length_map in Hev. simpl in Hev. lia.
Defined.
